(** * Notification service: preference gate, push fan-out, batch dispatch

    A shallow embedding of [NotificationService] (src/src/types/index.ts),
    the [FCMToken] and [NotificationPreferences] mongoose models and the
    [sendNotification] controller.  Every database or transport call is an
    effect of a state monad over an explicit store; a fault schedule decides,
    call by call, whether the collaborator raises, or whether a concurrent
    request created a preference record just before the call. *)

From Stdlib Require Import ZArith Lia Sorted Permutation.
From stdpp Require Import base gmap list strings.

Open Scope Z_scope.
Set Warnings "-register-all".

(** ** JavaScript values reaching the service from request bodies *)

Inductive jsval :=
  | JUndef
  | JNull
  | JBool (b : bool)
  | JNum (z : Z)
  | JStr (s : string)
  | JArr (l : list jsval)
  | JObj.

(** JavaScript truthiness ([!!v]). *)
Definition truthy (v : jsval) : bool :=
  match v with
  | JUndef | JNull => false
  | JBool b => b
  | JNum z => negb (Z.eqb z 0)
  | JStr s => negb (String.eqb s "")
  | JArr _ | JObj => true
  end.

Definition is_string (v : jsval) : bool :=
  match v with JStr _ => true | _ => false end.

(** [String.prototype.trim].  A string is held as the bytes of its UTF-8
    encoding; [trim] strips the JS white space and line terminators at both
    ends: U+0009-U+000D, U+0020 (one byte), U+00A0 (two bytes), U+1680,
    U+2000-U+200A, U+2028, U+2029, U+202F, U+205F, U+3000 and U+FEFF
    (three bytes). *)
Definition is_ws (c : Ascii.ascii) : bool :=
  let n := Ascii.nat_of_ascii c in
  (Nat.eqb n 32 || ((9 <=? n)%nat && (n <=? 13)%nat))%bool.

(** U+00A0 = C2 A0 *)
Definition is_ws2 (a b : Ascii.ascii) : bool :=
  (Nat.eqb (Ascii.nat_of_ascii a) 194 && Nat.eqb (Ascii.nat_of_ascii b) 160)%bool.

(** U+1680 = E1 9A 80; U+2000-U+200A = E2 80 80-8A; U+2028, U+2029,
    U+202F = E2 80 A8, A9, AF; U+205F = E2 81 9F; U+3000 = E3 80 80;
    U+FEFF = EF BB BF *)
Definition is_ws3 (a b c : Ascii.ascii) : bool :=
  let a := Ascii.nat_of_ascii a in
  let b := Ascii.nat_of_ascii b in
  let c := Ascii.nat_of_ascii c in
  ((Nat.eqb a 225 && Nat.eqb b 154 && Nat.eqb c 128)
   || (Nat.eqb a 226 && Nat.eqb b 128
       && ((128 <=? c)%nat && (c <=? 138)%nat || Nat.eqb c 168 || Nat.eqb c 169 || Nat.eqb c 175))
   || (Nat.eqb a 226 && Nat.eqb b 129 && Nat.eqb c 159)
   || (Nat.eqb a 227 && Nat.eqb b 128 && Nat.eqb c 128)
   || (Nat.eqb a 239 && Nat.eqb b 187 && Nat.eqb c 191))%bool.

(** [trimStart]: drop the leading white-space characters. *)
Fixpoint trim_start (s : string) : string :=
  match s with
  | EmptyString => EmptyString
  | String a r =>
      if is_ws a then trim_start r else
      match r with
      | String b r2 =>
          if is_ws2 a b then trim_start r2 else
          match r2 with
          | String c r3 => if is_ws3 a b c then trim_start r3 else s
          | EmptyString => s
          end
      | EmptyString => s
      end
  end.

Fixpoint rev_app (s acc : string) : string :=
  match s with
  | EmptyString => acc
  | String c r => rev_app r (String c acc)
  end.

Definition string_rev (s : string) : string := rev_app s EmptyString.

(** [trimStart] on the reversed bytes: the last character is read from the
    end, where its encoding appears backwards. *)
Fixpoint trim_start_rev (s : string) : string :=
  match s with
  | EmptyString => EmptyString
  | String c r =>
      if is_ws c then trim_start_rev r else
      match r with
      | String b r2 =>
          if is_ws2 b c then trim_start_rev r2 else
          match r2 with
          | String a r3 => if is_ws3 a b c then trim_start_rev r3 else s
          | EmptyString => s
          end
      | EmptyString => s
      end
  end.

(** [trimEnd]: drop the trailing white-space characters. *)
Definition trim_end (s : string) : string := string_rev (trim_start_rev (string_rev s)).

Definition trim (s : string) : string := trim_end (trim_start s).

(** The encodings of the JS white-space characters. *)
Definition js_ws_chars : list string :=
  map (fun l => String.string_of_list_ascii (map Ascii.ascii_of_nat l))
    [[9]; [10]; [11]; [12]; [13]; [32]; [194; 160]; [225; 154; 128];
     [226; 128; 128]; [226; 128; 129]; [226; 128; 130]; [226; 128; 131];
     [226; 128; 132]; [226; 128; 133]; [226; 128; 134]; [226; 128; 135];
     [226; 128; 136]; [226; 128; 137]; [226; 128; 138]; [226; 128; 168];
     [226; 128; 169]; [226; 128; 175]; [226; 129; 159]; [227; 128; 128];
     [239; 187; 191]]%nat.

(** U+00A0, the no-break space. *)
Definition nbsp : string := String (Ascii.ascii_of_nat 194) (String (Ascii.ascii_of_nat 160) EmptyString).

(** [!userId || typeof userId !== 'string' || userId.trim() === ''] *)
Definition invalid_userId (v : jsval) : bool :=
  (negb (truthy v) || negb (is_string v)
   || match v with JStr s => String.eqb (trim s) "" | _ => false end)%bool.

(** ** Preferences (types/index.ts, models/NotificationPreferences.ts) *)

Record Flags3 := mkFlags3 { email : bool; push : bool; sms : bool }.
Record PushOnly := mkPushOnly { only_push : bool }.

Record Prefs := mkPrefs {
  transactional : Flags3;
  taskUpdates : Flags3;
  taskReminders : Flags3;
  keywordTaskAlerts : PushOnly;
  recommendedTaskAlerts : PushOnly;
  helpfulInformation : Flags3;
  updatesNewsletters : Flags3
}.

(** The values written by [createDefault] (and returned for invalid ids). *)
Definition defaultPrefs : Prefs :=
  {| transactional := mkFlags3 false true true;
     taskUpdates := mkFlags3 true true true;
     taskReminders := mkFlags3 true true true;
     keywordTaskAlerts := mkPushOnly true;
     recommendedTaskAlerts := mkPushOnly true;
     helpfulInformation := mkFlags3 true true true;
     updatesNewsletters := mkFlags3 true true true |}.

(** A category name: one of the seven keys, or a name the record lacks. *)
Inductive Category :=
  | CTransactional | CTaskUpdates | CTaskReminders | CKeywordTaskAlerts
  | CRecommendedTaskAlerts | CHelpfulInformation | CUpdatesNewsletters
  | CUnknown (name : string).

Inductive Channel := ChPush | ChEmail | ChSms.

Definition channel_eqb (a b : Channel) : bool :=
  match a, b with
  | ChPush, ChPush | ChEmail, ChEmail | ChSms, ChSms => true
  | _, _ => false
  end.

(** The object [preferences[category]]. *)
Inductive CatPrefs := CP3 (f : Flags3) | CP1 (f : PushOnly).

(** [preferences[category]] for the seven categories.  Any other name is
    taken as absent from the document ([undefined]); the other members of a
    Mongoose document ([userId], [_id], inherited methods such as
    [toString]) are not modelled. *)
Definition catPrefs (p : Prefs) (c : Category) : option CatPrefs :=
  match c with
  | CTransactional => Some (CP3 (transactional p))
  | CTaskUpdates => Some (CP3 (taskUpdates p))
  | CTaskReminders => Some (CP3 (taskReminders p))
  | CKeywordTaskAlerts => Some (CP1 (keywordTaskAlerts p))
  | CRecommendedTaskAlerts => Some (CP1 (recommendedTaskAlerts p))
  | CHelpfulInformation => Some (CP3 (helpfulInformation p))
  | CUpdatesNewsletters => Some (CP3 (updatesNewsletters p))
  | CUnknown _ => None
  end.

(** [(categoryPrefs as { push: boolean }).push === true] *)
Definition cp_push (cp : CatPrefs) : bool :=
  match cp with CP3 f => push f | CP1 f => only_push f end.

Definition flag (f : Flags3) (ch : Channel) : bool :=
  match ch with ChPush => push f | ChEmail => email f | ChSms => sms f end.

(** A partial category object of an update request (absent key = None). *)
Record Patch3 := mkPatch3 { p_email : option bool; p_push : option bool; p_sms : option bool }.
Record Patch1 := mkPatch1 { p_only_push : option bool }.

(** [Partial<NotificationPreferences>]; None = key absent or falsy. *)
Record PrefsPatch := mkPrefsPatch {
  pt_transactional : option Patch3;
  pt_taskUpdates : option Patch3;
  pt_taskReminders : option Patch3;
  pt_keywordTaskAlerts : option Patch1;
  pt_recommendedTaskAlerts : option Patch1;
  pt_helpfulInformation : option Patch3;
  pt_updatesNewsletters : option Patch3
}.

Definition pick (o : option bool) (b : bool) : bool :=
  match o with Some x => x | None => b end.

(** [{ ...old, ...patch }] *)
Definition merge3 (f : Flags3) (q : Patch3) : Flags3 :=
  mkFlags3 (pick (p_email q) (email f)) (pick (p_push q) (push f)) (pick (p_sms q) (sms f)).

Definition merge1 (f : PushOnly) (q : Patch1) : PushOnly :=
  mkPushOnly (pick (p_only_push q) (only_push f)).

Definition upd3 (f : Flags3) (o : option Patch3) : Flags3 :=
  match o with Some q => merge3 f q | None => f end.

Definition upd1 (f : PushOnly) (o : option Patch1) : PushOnly :=
  match o with Some q => merge1 f q | None => f end.

(** The field updates of [updatePreferences], including
    [userPreferences!.transactional.push = true] in the transactional branch. *)
Definition apply_patch (p : Prefs) (q : PrefsPatch) : Prefs :=
  {| transactional :=
       match pt_transactional q with
       | Some t => let m := merge3 (transactional p) t in mkFlags3 (email m) true (sms m)
       | None => transactional p
       end;
     taskUpdates := upd3 (taskUpdates p) (pt_taskUpdates q);
     taskReminders := upd3 (taskReminders p) (pt_taskReminders q);
     keywordTaskAlerts := upd1 (keywordTaskAlerts p) (pt_keywordTaskAlerts q);
     recommendedTaskAlerts := upd1 (recommendedTaskAlerts p) (pt_recommendedTaskAlerts q);
     helpfulInformation := upd3 (helpfulInformation p) (pt_helpfulInformation q);
     updatesNewsletters := upd3 (updatesNewsletters p) (pt_updatesNewsletters q) |}.

Definition present {A} (o : option A) : bool :=
  match o with Some _ => true | None => false end.

Definition patch_nonempty (q : PrefsPatch) : bool :=
  (present (pt_transactional q) || present (pt_taskUpdates q) || present (pt_taskReminders q)
   || present (pt_keywordTaskAlerts q) || present (pt_recommendedTaskAlerts q)
   || present (pt_helpfulInformation q) || present (pt_updatesNewsletters q))%bool.

(** ** Device tokens (models/FCMToken.ts) *)

Inductive Platform := Ios | Android | Web.

Record TokenRec := mkTokenRec {
  tr_id : nat;
  tr_userId : string;
  tr_token : string;
  tr_platform : Platform;
  tr_deviceId : option string;
  tr_lastActive : nat
}.

(** One entry of [BatchResponse.responses]: success, or failure with
    [error?.code]. *)
Inductive Outcome := OSuccess | OFailure (code : option string).

(** ** Store, collaborators and the effect monad *)

(** How the next collaborator call behaves. *)
Inductive Fault :=
  | FOk
  | FErr (code : Z)          (** the call raises an error with this code *)
  | FRace (u : string).      (** another request created [u]'s default
                                 preferences just before the call *)

Inductive Op :=
  | OpFindPrefs (u : string)
  | OpCreatePrefs (u : string)
  | OpSavePrefs (u : string)
  | OpFindTokens (u : string)
  | OpMulticast (ts : list string)
  | OpUpdateMany (ts : list string)
  | OpDeleteMany (ts : list string)
  | OpFindToken (t : string)
  | OpDeleteDevice (u d : string)
  | OpInsertToken (t : string)
  | OpSaveToken (t : string)
  | OpDeleteOneToken (t : string).

Record State := mkState {
  st_prefs : gmap string Prefs;
  st_tokens : list TokenRec;
  st_nextId : nat;
  st_now : nat;
  st_fcm : string -> Outcome;
  st_sched : list Fault;
  st_log : list (Op * Fault)
}.

Definition set_prefs (m : gmap string Prefs) (s : State) : State :=
  mkState m (st_tokens s) (st_nextId s) (st_now s) (st_fcm s) (st_sched s) (st_log s).
Definition set_tokens (l : list TokenRec) (s : State) : State :=
  mkState (st_prefs s) l (st_nextId s) (st_now s) (st_fcm s) (st_sched s) (st_log s).
Definition set_nextId (n : nat) (s : State) : State :=
  mkState (st_prefs s) (st_tokens s) n (st_now s) (st_fcm s) (st_sched s) (st_log s).

Inductive Error :=
  | EStore (code : Z)
  | ETypeError
  | EValidation
  | EInvalidUserId
  | EBadRequest
  | EMsg (m : string)
  | EWrap (ctx : string) (inner : Error)
  | ENotFound (m : string).

Inductive Res (A : Type) := Ok (a : A) | Err (e : Error).
Arguments Ok {A} a.
Arguments Err {A} e.

Definition M (A : Type) := State -> Res A * State.

Definition ret {A} (a : A) : M A := fun s => (Ok a, s).
Definition throw {A} (e : Error) : M A := fun s => (Err e, s).
Definition bindM {A B} (m : M A) (k : A -> M B) : M B :=
  fun s => match m s with (Ok a, s1) => k a s1 | (Err e, s1) => (Err e, s1) end.
Definition catchM {A} (m : M A) (h : Error -> M A) : M A :=
  fun s => match m s with (Ok a, s1) => (Ok a, s1) | (Err e, s1) => h e s1 end.

Notation "'let*' x ':=' c 'in' k" := (bindM c (fun x => k))
  (at level 200, x name, c at level 100, k at level 200).

(** [catch (error) { throw new Error(`${ctx}: ${error.message}`) }] *)
Definition wrapErr {A} (ctx : string) (m : M A) : M A :=
  catchM m (fun e => throw (EWrap ctx e)).

(** A concurrent [createDefault u] that ran first (a no-op when [u]'s
    record exists: the unique index rejects the second insert). *)
Definition race_insert (u : string) (s : State) : State :=
  match st_prefs s !! u with
  | Some _ => s
  | None => set_prefs (<[u := defaultPrefs]> (st_prefs s)) s
  end.

(** The fault the next call meets, and the rest of the schedule. *)
Definition next_fault (s : State) : Fault * list Fault :=
  match st_sched s with [] => (FOk, []) | f :: r => (f, r) end.

Definition log_call (op : Op) (f : Fault) (rest : list Fault) (s : State) : State :=
  mkState (st_prefs s) (st_tokens s) (st_nextId s) (st_now s) (st_fcm s) rest ((op, f) :: st_log s).

(** One collaborator call: log it, consume the next fault, and either raise
    or run the call's effect [k]. *)
Definition db_op {A} (op : Op) (k : State -> Res A * State) : M A :=
  fun s =>
    let '(f, rest) := next_fault s in
    let s1 := log_call op f rest s in
    match f with
    | FOk => k s1
    | FErr c => (Err (EStore c), s1)
    | FRace u => k (race_insert u s1)
    end.

(** [NotificationPreferences.findOne({ userId })] *)
Definition findOnePrefs (u : string) : M (option Prefs) :=
  db_op (OpFindPrefs u) (fun s => (Ok (st_prefs s !! u), s)).

(** [NotificationPreferences.createDefault(userId)]: duplicate key 11000 when
    the record already exists. *)
Definition createDefault (u : string) : M Prefs :=
  db_op (OpCreatePrefs u) (fun s =>
    match st_prefs s !! u with
    | Some _ => (Err (EStore 11000), s)
    | None => (Ok defaultPrefs, set_prefs (<[u := defaultPrefs]> (st_prefs s)) s)
    end).

(** [userPreferences.save()] *)
Definition savePrefs (u : string) (p : Prefs) : M unit :=
  db_op (OpSavePrefs u) (fun s => (Ok tt, set_prefs (<[u := p]> (st_prefs s)) s)).

Definition is_dup_key (e : Error) : bool :=
  match e with EStore c => Z.eqb c 11000 | _ => false end.

(** find, else createDefault, re-reading on a duplicate-key error. *)
Definition get_or_create (u : string) : M (option Prefs) :=
  let* p := findOnePrefs u in
  match p with
  | Some p => ret (Some p)
  | None =>
      catchM (let* q := createDefault u in ret (Some q))
             (fun e => if is_dup_key e then findOnePrefs u else throw e)
  end.

(** [NotificationService.shouldSendNotification] *)
Definition shouldSendNotification (v : jsval) (cat : Category) (ch : Channel) : M bool :=
  catchM
    (if invalid_userId v then ret false else
     match v with
     | JStr u =>
         let* p := get_or_create u in
         match p with
         | None => ret true
         | Some p =>
             match catPrefs p cat with
             | None => ret true
             | Some cp =>
                 match cat with
                 | CKeywordTaskAlerts | CRecommendedTaskAlerts =>
                     ret (channel_eqb ch ChPush && cp_push cp)%bool
                 | _ =>
                     match cp with
                     | CP3 f => ret (flag f ch)
                     | CP1 _ => ret false
                     end
                 end
             end
         end
     | _ => ret false
     end)
    (fun _ => ret true).

(** [preferences?.x || default] for every category. *)
Definition or_default (p : option Prefs) : Prefs :=
  match p with Some p => p | None => defaultPrefs end.

(** [NotificationService.getPreferences] *)
Definition getPreferences (v : jsval) : M Prefs :=
  wrapErr "Failed to fetch preferences"
    (if invalid_userId v then ret defaultPrefs else
     match v with
     | JStr u => let* p := get_or_create u in ret (or_default p)
     | _ => ret defaultPrefs
     end).

(** [NotificationService.updatePreferences]: with no record at hand the
    first [userPreferences!.x] access raises a TypeError. *)
Definition updatePreferences (v : jsval) (q : PrefsPatch) : M Prefs :=
  wrapErr "Failed to update preferences"
    (if invalid_userId v then throw EInvalidUserId else
     match v with
     | JStr u =>
         let* p := get_or_create u in
         match p with
         | None => if patch_nonempty q then throw ETypeError else ret defaultPrefs
         | Some p =>
             let p' := apply_patch p q in
             let* _ := savePrefs u p' in
             ret p'
         end
     | _ => throw EInvalidUserId
     end).

(** ** Device-token collection *)

(** [.sort({ lastActive: -1 })] *)
Fixpoint insert_desc (r : TokenRec) (l : list TokenRec) : list TokenRec :=
  match l with
  | [] => [r]
  | x :: xs => if (tr_lastActive x <? tr_lastActive r)%nat then r :: l else x :: insert_desc r xs
  end.

Definition sort_desc (l : list TokenRec) : list TokenRec := fold_right insert_desc [] l.

(** The records [FCMToken.find({ userId }).sort({ lastActive: -1 })] yields. *)
Definition user_tokens (u : string) (l : list TokenRec) : list TokenRec :=
  sort_desc (List.filter (fun r => String.eqb (tr_userId r) u) l).

(** [NotificationService.getUserFCMTokens] *)
Definition getUserFCMTokens (u : string) : M (list TokenRec) :=
  catchM (db_op (OpFindTokens u) (fun s => (Ok (user_tokens u (st_tokens s)), s)))
         (fun _ => throw (EMsg "Failed to fetch FCM tokens")).

(** [admin.messaging().sendEachForMulticast({ tokens, ... })]: one outcome per
    token, in order.  The message (title, body, data) is not observed by
    anything below and is left out. *)
Definition sendEachForMulticast (ts : list string) : M (list Outcome) :=
  db_op (OpMulticast ts) (fun s => (Ok (map (st_fcm s) ts), s)).

Definition mem_str (t : string) (ts : list string) : bool :=
  existsb (fun x => String.eqb x t) ts.

(** [FCMToken.updateMany({ token: { $in: ts } }, { lastActive: new Date() })] *)
Definition touch (now : nat) (r : TokenRec) : TokenRec :=
  mkTokenRec (tr_id r) (tr_userId r) (tr_token r) (tr_platform r) (tr_deviceId r) now.

Definition updateManyLastActive (ts : list string) : M unit :=
  db_op (OpUpdateMany ts) (fun s =>
    (Ok tt, set_tokens (map (fun r => if mem_str (tr_token r) ts then touch (st_now s) r else r)
                            (st_tokens s)) s)).

(** [FCMToken.deleteMany({ token: { $in: ts } })] *)
Definition deleteManyTokens (ts : list string) : M unit :=
  db_op (OpDeleteMany ts) (fun s =>
    (Ok tt, set_tokens (List.filter (fun r => negb (mem_str (tr_token r) ts)) (st_tokens s)) s)).

Definition is_success (o : Outcome) : bool :=
  match o with OSuccess => true | OFailure _ => false end.

Definition is_invalid_token_error (o : Outcome) : bool :=
  match o with
  | OFailure (Some c) =>
      (String.eqb c "messaging/invalid-registration-token"
       || String.eqb c "messaging/registration-token-not-registered")%bool
  | _ => false
  end.

(** [responses.map((resp, idx) => sel(resp) ? tokens[idx].token : null)
      .filter(Boolean)] *)
Fixpoint select_tokens (sel : Outcome -> bool) (tks : list TokenRec) (rs : list Outcome)
  : list string :=
  match tks, rs with
  | t :: tks', r :: rs' =>
      (if sel r then [tr_token t] else []) ++ select_tokens sel tks' rs'
  | _, _ => []
  end.

Definition truthy_strings (l : list string) : list string :=
  List.filter (fun t => negb (String.eqb t "")) l.

Definition successCount (rs : list Outcome) : nat := length (List.filter is_success rs).
Definition failureCount (rs : list Outcome) : nat :=
  length (List.filter (fun o => negb (is_success o)) rs).

Record PushResult := mkPushResult { pr_success : bool; pr_sent : nat; pr_failed : nat }.

Record Notification := mkNotification {
  n_type : jsval;
  n_title : jsval;
  n_body : jsval;
  n_category : option Category
}.

(** [notification.category || 'taskUpdates'] *)
Definition notif_category (n : Notification) : Category :=
  match n_category n with Some c => c | None => CTaskUpdates end.

Definition skipped : PushResult := mkPushResult true 0 0.

(** [NotificationService.sendPushNotification] *)
Definition sendPushNotification (v : jsval) (n : Notification) : M PushResult :=
  wrapErr "Failed to send push notification"
    (let* ok := shouldSendNotification v (notif_category n) ChPush in
     if negb ok then ret skipped else
     match v with
     | JStr u =>
         let* tks := getUserFCMTokens u in
         match tks with
         | [] => ret skipped
         | _ =>
             let* rs := sendEachForMulticast (map tr_token tks) in
             let ok_ts := truthy_strings (select_tokens is_success tks rs) in
             let* _ := (if negb (Nat.eqb (length ok_ts) 0)
                        then updateManyLastActive ok_ts else ret tt) in
             let bad_ts := truthy_strings (select_tokens
                             (fun o => negb (is_success o) && is_invalid_token_error o)%bool
                             tks rs) in
             let* _ := (if negb (Nat.eqb (length bad_ts) 0)
                        then deleteManyTokens bad_ts else ret tt) in
             ret (mkPushResult (0 <? successCount rs)%nat (successCount rs) (failureCount rs))
         end
     | _ => ret skipped  (* unreachable: the gate denies non-string ids *)
     end).

Record BatchResult := mkBatchResult { br_total : nat; br_sent : nat; br_failed : nat }.

(** The [for ... of userIds] loop of [sendToMultipleUsers]. *)
Fixpoint batch_loop (ids : list jsval) (n : Notification) (sent failed : nat) : M (nat * nat) :=
  match ids with
  | [] => ret (sent, failed)
  | u :: rest =>
      let* acc := catchM (let* r := sendPushNotification u n in
                          ret (sent + pr_sent r, failed + pr_failed r)%nat)
                         (fun _ => ret (sent, S failed)) in
      batch_loop rest n (fst acc) (snd acc)
  end.

(** [NotificationService.sendToMultipleUsers] *)
Definition sendToMultipleUsers (ids : list jsval) (n : Notification) : M BatchResult :=
  let* acc := batch_loop ids n 0 0 in
  ret (mkBatchResult (length ids) (fst acc) (snd acc)).

(** ** Token registration *)

(** [FCMToken.findOne({ token })] *)
Definition findOneToken (t : string) : M (option TokenRec) :=
  db_op (OpFindToken t) (fun s => (Ok (List.find (fun r => String.eqb (tr_token r) t) (st_tokens s)), s)).

(** [fcmToken.save()] of a loaded document: replaced by [_id]; the pre-save
    hook does nothing ([this.isNew] is false). *)
Definition saveExistingToken (r : TokenRec) : M TokenRec :=
  if String.eqb (tr_userId r) "" then throw EValidation else
  db_op (OpSaveToken (tr_token r)) (fun s =>
    (Ok r, set_tokens (map (fun x => if Nat.eqb (tr_id x) (tr_id r) then r else x) (st_tokens s)) s)).

(** A fresh [_id], generated client-side. *)
Definition new_id : M nat := fun s => (Ok (st_nextId s), set_nextId (S (st_nextId s)) s).

Definition current_time : M nat := fun s => (Ok (st_now s), s).

(** The pre('save') hook of a new document with a truthy [deviceId]:
    [deleteMany({ userId, deviceId, _id: { $ne: this._id } })]. *)
Definition delete_same_device (u d : string) (id : nat) : M unit :=
  db_op (OpDeleteDevice u d) (fun s =>
    (Ok tt, set_tokens (List.filter (fun r => negb (String.eqb (tr_userId r) u
                                              && bool_decide (tr_deviceId r = Some d)
                                              && negb (Nat.eqb (tr_id r) id))%bool)
                               (st_tokens s)) s)).

(** The insert itself, under the unique index on [token]. *)
Definition insertToken (r : TokenRec) : M TokenRec :=
  db_op (OpInsertToken (tr_token r)) (fun s =>
    if existsb (fun x => String.eqb (tr_token x) (tr_token r)) (st_tokens s)
    then (Err (EStore 11000), s)
    else (Ok r, set_tokens (st_tokens s ++ [r]) s)).

(** [FCMToken.create({...})]: validation (required [userId], [token]), then
    the pre-save hook, then the insert. *)
Definition createToken (u t : string) (pl : Platform) (d : option string) : M TokenRec :=
  if (String.eqb u "" || String.eqb t "")%bool then throw EValidation else
  let* id := new_id in
  let* now := current_time in
  let r := mkTokenRec id u t pl d now in
  let* _ := match d with
            | Some dv => if String.eqb dv "" then ret tt else delete_same_device u dv id
            | None => ret tt
            end in
  insertToken r.

(** [NotificationService.registerToken] *)
Definition registerToken (u t : string) (pl : Platform) (d : option string) : M TokenRec :=
  wrapErr "Failed to register FCM token"
    (let* found := findOneToken t in
     match found with
     | Some r =>
         let* now := current_time in
         saveExistingToken (mkTokenRec (tr_id r) u (tr_token r) pl d now)
     | None => createToken u t pl d
     end).

(** ** The single-send controller (controllers/NotificationController.ts) *)

Record SendBody := mkSendBody {
  b_userId : jsval;
  b_recipients : jsval;
  b_type : jsval;
  b_eventKey : jsval;
  b_title : jsval;
  b_body : jsval;
  b_category : option Category
}.

(** [recipients && Array.isArray(recipients) ? recipients : [userId]] *)
Definition target_users (b : SendBody) : list jsval :=
  match b_recipients b with
  | JArr l => l
  | _ => [b_userId b]
  end.

(** [type || eventKey] *)
Definition notification_type (b : SendBody) : jsval :=
  if truthy (b_type b) then b_type b else b_eventKey b.

Definition send_invalid (b : SendBody) : bool :=
  (Nat.eqb (length (target_users b)) 0 || negb (truthy (notification_type b))
   || negb (truthy (b_title b)) || negb (truthy (b_body b)))%bool.

Inductive HttpResp :=
  | HOk (success : bool) (sent failed : nat)
  | HErr (e : Error).

Fixpoint send_loop (ids : list jsval) (n : Notification) (sent failed : nat) : M (nat * nat) :=
  match ids with
  | [] => ret (sent, failed)
  | u :: rest =>
      let* acc := catchM (let* r := sendPushNotification u n in
                          ret (sent + pr_sent r, failed + pr_failed r)%nat)
                         (fun _ => ret (sent, S failed)) in
      send_loop rest n (fst acc) (snd acc)
  end.

(** [NotificationController.sendNotification] *)
Definition sendNotification (b : SendBody) : M HttpResp :=
  catchM
    (if send_invalid b then throw EBadRequest else
     let n := mkNotification (notification_type b) (b_title b) (b_body b) (b_category b) in
     let* acc := send_loop (target_users b) n 0 0 in
     ret (HOk (0 <? fst acc)%nat (fst acc) (snd acc)))
    (fun e => ret (HErr e)).

(** ** Properties of runs *)

(** [m] only moves the store along [R]. *)
Definition keeps (R : State -> State -> Prop) {A} (m : M A) : Prop :=
  forall s, R s (snd (m s)).

(** Runs that leave the token collection, the transport, the clock and the
    id counter alone. *)
Definition tok_frame (s s' : State) : Prop :=
  st_tokens s' = st_tokens s /\ st_fcm s' = st_fcm s /\ st_now s' = st_now s
  /\ st_nextId s' = st_nextId s.

Definition is_pref_op (e : Op * Fault) : Prop :=
  match fst e with OpFindPrefs _ | OpCreatePrefs _ | OpSavePrefs _ => True | _ => False end.

(** Runs that only called the preference store. *)
Definition pref_calls_only (s s' : State) : Prop :=
  exists l, st_log s' = l ++ st_log s /\ Forall is_pref_op l.

(** [transactional.push] is true in every stored preference record. *)
Definition trans_push_inv (s : State) : Prop :=
  map_Forall (fun _ p => push (transactional p) = true) (st_prefs s).

Definition inv_rel (s s' : State) : Prop := trans_push_inv s -> trans_push_inv s'.

Definition empty_store (now : nat) (fcm : string -> Outcome) : State :=
  mkState ∅ [] 0 now fcm [] [].

(** The stores the service can reach: any sequence of its operations, with
    the collaborators' behaviour (faults, transport outcomes, clock) free to
    change between calls. *)
Inductive Reachable : State -> Prop :=
  | R_init now fcm : Reachable (empty_store now fcm)
  | R_env s now fcm sched :
      Reachable s ->
      Reachable (mkState (st_prefs s) (st_tokens s) (st_nextId s) now fcm sched (st_log s))
  | R_should s v c ch : Reachable s -> Reachable (snd (shouldSendNotification v c ch s))
  | R_get s v : Reachable s -> Reachable (snd (getPreferences v s))
  | R_update s v q : Reachable s -> Reachable (snd (updatePreferences v q s))
  | R_push s v n : Reachable s -> Reachable (snd (sendPushNotification v n s))
  | R_batch s ids n : Reachable s -> Reachable (snd (sendToMultipleUsers ids n s))
  | R_register s u t pl d : Reachable s -> Reachable (snd (registerToken u t pl d s))
  | R_send s b : Reachable s -> Reachable (snd (sendNotification b s)).

(** Well-formed token collection: unique token strings (the unique index),
    none of them empty (the required validator). *)
Definition tokens_wf (l : list TokenRec) : Prop :=
  NoDup (map tr_token l) /\ Forall (fun r => tr_token r <> "") l.

(** Sequential dispatch, one [sendPushNotification] per id, in order. *)
Inductive SeqRun (n : Notification) : list jsval -> State -> list (Res PushResult) -> State -> Prop :=
  | SR_nil s : SeqRun n [] s [] s
  | SR_cons u us s r s1 rs s2 :
      sendPushNotification u n s = (r, s1) ->
      SeqRun n us s1 rs s2 ->
      SeqRun n (u :: us) s (r :: rs) s2.

Definition res_sent (r : Res PushResult) : nat :=
  match r with Ok p => pr_sent p | Err _ => 0 end.
Definition res_failed (r : Res PushResult) : nat :=
  match r with Ok p => pr_failed p | Err _ => 1 end.

Definition sum_nat (l : list nat) : nat := fold_right Nat.add 0%nat l.

(** The target list in the words of the spec: [recipients] if present and
    non-empty, else [[userId]]. *)
Definition spec_targets (b : SendBody) : list jsval :=
  match b_recipients b with
  | JArr (_ :: _ as l) => l
  | _ => [b_userId b]
  end.

(** ** Sample stores *)

Definition code_transient : string := "messaging/internal-error".
Definition code_unregistered : string := "messaging/registration-token-not-registered".

Definition tok (id : nat) (u t : string) (d : option string) : TokenRec :=
  mkTokenRec id u t Android d 0.

(** Three devices of ["u"]; the transport accepts "t1", reports a transient
    error for "t2" and an unregistered token for "t3". *)
Definition fcm3 (t : string) : Outcome :=
  if String.eqb t "t1" then OSuccess
  else if String.eqb t "t2" then OFailure (Some code_transient)
  else OFailure (Some code_unregistered).

Definition store3 : State :=
  mkState {[ "u" := defaultPrefs ]}
          [tok 0 "u" "t1" (Some "d1"); tok 1 "u" "t2" (Some "d2"); tok 2 "u" "t3" (Some "d3")]
          3 7 fcm3 [] [].

Definition all_ok (_ : string) : Outcome := OSuccess.

(** Users "a", "b", "c" with one device each; the token lookup for "b" fails. *)
Definition store_abc : State :=
  mkState {[ "a" := defaultPrefs; "b" := defaultPrefs; "c" := defaultPrefs ]}
          [tok 0 "a" "ta" None; tok 1 "b" "tb" None; tok 2 "c" "tc" None]
          3 7 all_ok [FOk; FOk; FOk; FOk; FOk; FErr 2] [].

Definition plain_notification : Notification :=
  mkNotification (JStr "task_update") (JStr "Title") (JStr "Body") None.

Definition prefs_push_off : Prefs :=
  {| transactional := mkFlags3 false true true;
     taskUpdates := mkFlags3 true false true;
     taskReminders := mkFlags3 true true true;
     keywordTaskAlerts := mkPushOnly false;
     recommendedTaskAlerts := mkPushOnly true;
     helpfulInformation := mkFlags3 true true true;
     updatesNewsletters := mkFlags3 true true true |}.

Definition store_denied : State :=
  mkState {[ "u" := prefs_push_off ]} [tok 0 "u" "t1" None] 1 7 all_ok [] [].

Definition no_patch : PrefsPatch := mkPrefsPatch None None None None None None None.

Definition patch_trans_off : PrefsPatch :=
  mkPrefsPatch (Some (mkPatch3 (Some true) (Some false) None)) None None None None None None.

(** ** Auxiliary predicates for the corrected claims *)

(** Whether a scheduled fault makes the call raise. *)
Definition is_raise (f : Fault) : bool :=
  match f with FErr _ => true | _ => false end.

(** Runs in which every call that raised was a call to the preference store. *)
Definition raised_only_prefs (s s' : State) : Prop :=
  exists l, st_log s' = l ++ st_log s
            /\ Forall (fun e => is_pref_op e \/ is_raise (snd e) = false) l.

(** Runs that only add calls to the log. *)
Definition log_ext (s s' : State) : Prop := exists l, st_log s' = l ++ st_log s.

(** The filter [{ userId: u, deviceId: d }]. *)
Definition same_device (u d : string) (r : TokenRec) : bool :=
  (String.eqb (tr_userId r) u && bool_decide (tr_deviceId r = Some d))%bool.

(** Every stored token record has an [_id] below the next fresh one. *)
Definition ids_below (s : State) : Prop :=
  Forall (fun r => (tr_id r < st_nextId s)%nat) (st_tokens s).

(** ** More sample stores *)

(** "u" has a preference record; the first call to the store raises. *)
Definition store_pref_down : State :=
  mkState {[ "u" := defaultPrefs ]} [] 0 0 all_ok [FErr 1] [].

(** One device of "u"; the gate, the token read and the transport succeed,
    the bulk last-active update raises. *)
Definition store_cleanup_fails : State :=
  mkState {[ "u" := defaultPrefs ]} [tok 0 "u" "t1" None] 1 7 all_ok [FOk; FOk; FOk; FErr 5] [].

(** A send request with an empty [recipients] array. *)
Definition body_no_recipients : SendBody :=
  mkSendBody (JStr "u") (JArr []) (JStr "task_update") JUndef (JStr "Title") (JStr "Body") None.

(** "u" registers "t1" on device "d"; "v" registers "t2" on device "e";
    then "u" registers "t2" on device "d". *)
Definition reg_1 : State := snd (registerToken "u" "t1" Android (Some "d") (empty_store 5 all_ok)).
Definition reg_2 : State := snd (registerToken "v" "t2" Ios (Some "e") reg_1).
Definition reg_3 : State := snd (registerToken "u" "t2" Android (Some "d") reg_2).

(** ** Token removal (NotificationService.removeToken) *)

(** The collection after [deleteOne({ token: t })]: the first record with
    that token string is removed. *)
Fixpoint delete_first_token (t : string) (l : list TokenRec) : list TokenRec :=
  match l with
  | [] => []
  | x :: xs => if String.eqb (tr_token x) t then xs else x :: delete_first_token t xs
  end.

(** [FCMToken.deleteOne({ token })]: its [deletedCount]. *)
Definition deleteOneToken (t : string) : M nat :=
  db_op (OpDeleteOneToken t) (fun s =>
    if existsb (fun x => String.eqb (tr_token x) t) (st_tokens s)
    then (Ok 1%nat, set_tokens (delete_first_token t (st_tokens s)) s)
    else (Ok 0%nat, s)).

Definition is_not_found (e : Error) : bool :=
  match e with ENotFound _ => true | _ => false end.

(** [NotificationService.removeToken] *)
Definition removeToken (t : string) : M unit :=
  catchM (let* n := deleteOneToken t in
          if Nat.eqb n 0 then throw (ENotFound "FCM token not found") else ret tt)
         (fun e => if is_not_found e then throw e else throw (EWrap "Failed to remove FCM token" e)).

(** ** The batch controller (NotificationController.sendBatchNotification) *)

Record BatchBody := mkBatchBody {
  bb_userIds : jsval;
  bb_type : jsval;
  bb_eventKey : jsval;
  bb_title : jsval;
  bb_body : jsval;
  bb_category : option Category
}.

Definition batch_type (b : BatchBody) : jsval :=
  if truthy (bb_type b) then bb_type b else bb_eventKey b.

(** [!userIds || !Array.isArray(userIds) || userIds.length === 0], then
    [!notificationType || !title || !body]. *)
Definition batch_invalid (b : BatchBody) : bool :=
  ((match bb_userIds b with JArr (_ :: _) => false | _ => true end)
   || negb (truthy (batch_type b)) || negb (truthy (bb_title b)) || negb (truthy (bb_body b)))%bool.

Inductive BatchResp :=
  | BOk (success : bool) (total sent failed : nat)
  | BErr (e : Error).

(** [NotificationController.sendBatchNotification] *)
Definition sendBatchNotification (b : BatchBody) : M BatchResp :=
  catchM
    (if batch_invalid b then throw EBadRequest else
     match bb_userIds b with
     | JArr ids =>
         let n := mkNotification (batch_type b) (bb_title b) (bb_body b) (bb_category b) in
         let* r := sendToMultipleUsers ids n in
         ret (BOk true (br_total r) (br_sent r) (br_failed r))
     | _ => throw EBadRequest
     end)
    (fun e => ret (BErr e)).

(** ** The token-store invariant *)

(** Unique, non-empty token strings; unique [_id]s, all below the next
    fresh one. *)
Definition tok_inv (s : State) : Prop :=
  tokens_wf (st_tokens s) /\ NoDup (map tr_id (st_tokens s)) /\ ids_below s.

Definition tinv_rel (s s' : State) : Prop := tok_inv s -> tok_inv s'.

(** Every token string stored in [s'] was already stored in [s]. *)
Definition tok_sub (s s' : State) : Prop :=
  incl (map tr_token (st_tokens s')) (map tr_token (st_tokens s)).

(** The stores reachable with every operation of the service, token
    removal included. *)
Inductive ServiceReachable : State -> Prop :=
  | SR_init now fcm : ServiceReachable (empty_store now fcm)
  | SR_env s now fcm sched :
      ServiceReachable s ->
      ServiceReachable (mkState (st_prefs s) (st_tokens s) (st_nextId s) now fcm sched (st_log s))
  | SR_should s v c ch : ServiceReachable s -> ServiceReachable (snd (shouldSendNotification v c ch s))
  | SR_get s v : ServiceReachable s -> ServiceReachable (snd (getPreferences v s))
  | SR_update s v q : ServiceReachable s -> ServiceReachable (snd (updatePreferences v q s))
  | SR_push s v n : ServiceReachable s -> ServiceReachable (snd (sendPushNotification v n s))
  | SR_batch s ids n : ServiceReachable s -> ServiceReachable (snd (sendToMultipleUsers ids n s))
  | SR_register s u t pl d : ServiceReachable s -> ServiceReachable (snd (registerToken u t pl d s))
  | SR_remove s t : ServiceReachable s -> ServiceReachable (snd (removeToken t s))
  | SR_send s b : ServiceReachable s -> ServiceReachable (snd (sendNotification b s))
  | SR_send_batch s b : ServiceReachable s -> ServiceReachable (snd (sendBatchNotification b s)).

(** [.sort({ lastActive: -1 })] ordered the list. *)
Definition by_last_active_desc (a b : TokenRec) : Prop := (tr_lastActive b <= tr_lastActive a)%nat.

(** Two devices of "u" with different last-active times, one of "v". *)
Definition store_la : State :=
  mkState ∅ [mkTokenRec 0 "u" "t1" Android None 3; mkTokenRec 1 "v" "t2" Ios None 9;
             mkTokenRec 2 "u" "t3" Web (Some "d") 5] 3 10 all_ok [] [].

(** ** In-app notifications (models/InAppNotification.ts and the in-app
    part of NotificationService) *)

(** A stored in-app notification.  [data] and [expiresAt] (set by the
    pre-save hook, used only by the TTL index) are not observed by the
    service's results and are left out. *)
Record InAppNotif := mkInApp {
  ia_id : nat;
  ia_userId : string;
  ia_title : string;
  ia_body : string;
  ia_type : string;
  ia_category : option string;
  ia_read : bool;
  ia_readAt : option nat;
  ia_createdAt : nat;
  ia_updatedAt : nat
}.

(** The in-app collection, the id counter, the clock and the fault
    schedule of its calls ([Some c]: the call raises with code [c]; a
    [notificationId] that does not cast to an ObjectId is such a raise). *)
Record IState := mkIState {
  is_notifs : list InAppNotif;
  is_nextId : nat;
  is_now : nat;
  is_sched : list (option Z)
}.

Definition set_notifs (l : list InAppNotif) (s : IState) : IState :=
  mkIState l (is_nextId s) (is_now s) (is_sched s).

Definition IM (A : Type) := IState -> Res A * IState.

Definition iret {A} (a : A) : IM A := fun s => (Ok a, s).
Definition ithrow {A} (e : Error) : IM A := fun s => (Err e, s).
Definition ibind {A B} (m : IM A) (k : A -> IM B) : IM B :=
  fun s => match m s with (Ok a, s1) => k a s1 | (Err e, s1) => (Err e, s1) end.
Definition iwrap {A} (ctx : string) (m : IM A) : IM A :=
  fun s => match m s with (Ok a, s1) => (Ok a, s1) | (Err e, s1) => (Err (EWrap ctx e), s1) end.

Notation "'let+' x ':=' c 'in' k" := (ibind c (fun x => k))
  (at level 200, x name, c at level 100, k at level 200).

(** One call to the collection: consume the next fault, then raise or run. *)
Definition icall {A} (k : IState -> Res A * IState) : IM A :=
  fun s =>
    match is_sched s with
    | [] => k s
    | f :: rest =>
        let s1 := mkIState (is_notifs s) (is_nextId s) (is_now s) rest in
        match f with None => k s1 | Some c => (Err (EStore c), s1) end
    end.

Definition inapp_types : list string := ["info"; "warning"; "error"; "success"].

(** [InAppNotification.create({...})]: the schema's validation (required
    userId, title, body; [type] in the enum), then the insert, with the
    timestamps set to the current time. *)
Definition inAppCreate (u title body ty : string) (cat : option string) : IM InAppNotif :=
  if (String.eqb u "" || String.eqb title "" || String.eqb body ""
      || negb (existsb (String.eqb ty) inapp_types))%bool
  then ithrow EValidation else
  icall (fun s =>
    let r := mkInApp (is_nextId s) u title body ty cat false None (is_now s) (is_now s) in
    (Ok r, mkIState (is_notifs s ++ [r]) (S (is_nextId s)) (is_now s) (is_sched s))).

(** [NotificationService.createInAppNotification]: [type: data.type || 'info']. *)
Definition createInAppNotification (u title body : string) (ty cat : option string) : IM InAppNotif :=
  iwrap "Failed to create in-app notification"
    (inAppCreate u title body
       (match ty with Some t => if String.eqb t "" then "info" else t | None => "info" end) cat).

Definition unread_of (u : string) (x : InAppNotif) : bool :=
  (String.eqb (ia_userId x) u && negb (ia_read x))%bool.

(** [NotificationService.getUnreadNotificationCount] *)
Definition getUnreadNotificationCount (u : string) : IM nat :=
  iwrap "Failed to count unread notifications"
    (icall (fun s => (Ok (length (List.filter (unread_of u) (is_notifs s))), s))).

(** [{ read: true, readAt: new Date() }], with the [updatedAt] timestamp. *)
Definition mark_read (now : nat) (x : InAppNotif) : InAppNotif :=
  mkInApp (ia_id x) (ia_userId x) (ia_title x) (ia_body x) (ia_type x) (ia_category x)
          true (Some now) (ia_createdAt x) now.

Definition owned (id : nat) (u : string) (x : InAppNotif) : bool :=
  (Nat.eqb (ia_id x) id && String.eqb (ia_userId x) u)%bool.

(** Whether writing [mark_read now] changes the document ([modifiedCount]):
    unless it is read, was read at [now] and last updated at [now]. *)
Definition mark_changes (now : nat) (x : InAppNotif) : bool :=
  negb (ia_read x && bool_decide (ia_readAt x = Some now) && Nat.eqb (ia_updatedAt x) now)%bool.

(** [updateOne]: the first matching document only. *)
Fixpoint update_first {A} (p : A -> bool) (f : A -> A) (l : list A) : list A :=
  match l with
  | [] => []
  | x :: xs => if p x then f x :: xs else x :: update_first p f xs
  end.

(** [NotificationService.markInAppNotificationAsRead]:
    [updateOne({ _id, userId }, ...)], then [modifiedCount > 0]. *)
Definition markInAppNotificationAsRead (id : nat) (u : string) : IM bool :=
  iwrap "Failed to mark notification as read"
    (icall (fun s =>
       match List.find (owned id u) (is_notifs s) with
       | None => (Ok false, s)
       | Some x =>
           (Ok (mark_changes (is_now s) x),
            set_notifs (update_first (owned id u) (mark_read (is_now s)) (is_notifs s)) s)
       end)).

(** [NotificationService.markAllInAppNotificationsAsRead]:
    [updateMany({ userId, read: false }, ...)] and its [modifiedCount]. *)
Definition markAllInAppNotificationsAsRead (u : string) : IM nat :=
  iwrap "Failed to mark all notifications as read"
    (icall (fun s =>
       (Ok (length (List.filter (unread_of u) (is_notifs s))),
        set_notifs (map (fun y => if unread_of u y then mark_read (is_now s) y else y)
                        (is_notifs s)) s))).

Fixpoint remove_first {A} (p : A -> bool) (l : list A) : list A :=
  match l with
  | [] => []
  | x :: xs => if p x then xs else x :: remove_first p xs
  end.

(** [NotificationService.deleteInAppNotification]:
    [deleteOne({ _id, userId })], then [deletedCount > 0]. *)
Definition deleteInAppNotification (id : nat) (u : string) : IM bool :=
  iwrap "Failed to delete notification"
    (icall (fun s =>
       if existsb (owned id u) (is_notifs s)
       then (Ok true, set_notifs (remove_first (owned id u) (is_notifs s)) s)
       else (Ok false, s))).

(** [.sort({ createdAt: -1 })] *)
Fixpoint insert_created (r : InAppNotif) (l : list InAppNotif) : list InAppNotif :=
  match l with
  | [] => [r]
  | x :: xs => if (ia_createdAt x <? ia_createdAt r)%nat then r :: l else x :: insert_created r xs
  end.

Definition sort_created (l : list InAppNotif) : list InAppNotif := fold_right insert_created [] l.

(** The query [{ userId }], with [read: false] when [unreadOnly]. *)
Definition inapp_query (u : string) (unreadOnly : bool) (x : InAppNotif) : bool :=
  (String.eqb (ia_userId x) u && (if unreadOnly then negb (ia_read x) else true))%bool.

(** [.limit(limit).skip(skip)] on the server: the skip is applied first; a
    limit of 0 means no limit, a negative one returns a single batch of at
    most |limit| documents.  [skip] is non-negative here (see below). *)
Definition page {A} (skip limit : Z) (l : list A) : list A :=
  let l' := skipn (Z.to_nat skip) l in
  if Z.eqb limit 0 then l' else firstn (Z.to_nat (Z.abs limit)) l'.

(** [.sort({ createdAt: -1 })] ordered the list. *)
Definition by_created_desc (a b : InAppNotif) : Prop := (ia_createdAt b <= ia_createdAt a)%nat.

Record InAppPage := mkInAppPage {
  ip_notifications : list InAppNotif;
  ip_unreadCount : nat;
  ip_hasMore : bool
}.

(** The server refuses a negative skip ("BSON field 'skip' value must be
    >= 0", code 51024). *)
Definition negative_skip_code : Z := 51024.

(** [NotificationService.getInAppNotifications]: three calls (unread count,
    the page, the total count).  [limit] and [skip] are the integers the
    controller passes: [Math.min(parseInt(limit) || 50, 100)] and
    [parseInt(skip) || 0], either of which may be negative. *)
Definition getInAppNotifications (u : string) (limit skip : Z) (unreadOnly : bool) : IM InAppPage :=
  iwrap "Failed to fetch in-app notifications"
    (let+ unread := icall (fun s => (Ok (length (List.filter (unread_of u) (is_notifs s))), s)) in
     let+ ns := icall (fun s =>
                  if (skip <? 0)%Z then (Err (EStore negative_skip_code), s) else
                  (Ok (page skip limit (sort_created (List.filter (inapp_query u unreadOnly) (is_notifs s)))), s)) in
     let+ total := icall (fun s => (Ok (length (List.filter (inapp_query u unreadOnly) (is_notifs s))), s)) in
     iret (mkInAppPage ns unread (skip + limit <? Z.of_nat total)%Z)).

(** "u" has an unread and a read notification, "v" an unread one. *)
Definition istore : IState :=
  mkIState [mkInApp 0 "u" "A" "a" "info" None false None 1 1;
            mkInApp 1 "v" "B" "b" "warning" None false None 2 2;
            mkInApp 2 "u" "C" "c" "success" (Some "task") true (Some 4%nat) 3 4] 3 9 [].

(** ** CORS (config/env.ts, getCorsConfig) *)

(** [s.split(',')] *)
Fixpoint split_comma (s : string) : list string :=
  match s with
  | EmptyString => [""]
  | String c rest =>
      let parts := split_comma rest in
      if Nat.eqb (Ascii.nat_of_ascii c) 44 then "" :: parts  (* "," *)
      else match parts with
           | p :: ps => String c p :: ps
           | [] => [String c ""]
           end
  end.

Definition default_origins : list string :=
  ["https://extrahand.in"; "https://www.extrahand.in";
   "http://localhost:3000"; "http://localhost:4000"; "http://localhost:4005";
   "http://localhost:5000"; "http://localhost:8080";
   "http://127.0.0.1:3000"; "http://127.0.0.1:4000"; "http://127.0.0.1:4005";
   "http://127.0.0.1:5000"; "http://127.0.0.1:8080"].

(** [env.CORS_ORIGIN.split(',').map(o => o.trim()).filter(o => o.length > 0)],
    when [CORS_ORIGIN] is set and non-empty. *)
Definition custom_origins (cors_env : option string) : list string :=
  match cors_env with
  | Some e =>
      if String.eqb e "" then []
      else List.filter (fun o => negb (Nat.eqb (String.length o) 0)) (map trim (split_comma e))
  | None => []
  end.

(** [Array.from(new Set(l))]: first occurrences, in order. *)
Definition dedup_strings (l : list string) : list string :=
  fold_left (fun acc x => if existsb (String.eqb x) acc then acc else acc ++ [x]) l [].

(** One step of [dedup_strings]. *)
Definition dedup_step (acc : list string) (x : string) : list string :=
  if existsb (String.eqb x) acc then acc else acc ++ [x].

Definition allowed_origins (cors_env : option string) : list string :=
  dedup_strings (default_origins ++ custom_origins cors_env).

(** The [origin] callback: [Ok true] for [callback(null, true)], an error
    for [callback(new Error(...))]. *)
Definition cors_origin (cors_env : option string) (origin : option string) : Res bool :=
  match origin with
  | None => Ok true
  | Some o =>
      if String.eqb o "" then Ok true
      else if existsb (String.eqb o) (allowed_origins cors_env) then Ok true
      else Err (EMsg ("Origin " ++ o ++ " not allowed by CORS policy"))
  end.

(** ** Proofs *)

Example ex_fanout3 :
  fst (sendPushNotification (JStr "u") plain_notification store3) = Ok (mkPushResult true 1 2)
  /\ st_tokens (snd (sendPushNotification (JStr "u") plain_notification store3))
     = [touch 7 (tok 0 "u" "t1" (Some "d1")); tok 1 "u" "t2" (Some "d2")].
Proof. split; reflexivity. Qed.

(** *** Generic rules for [keeps] *)

Section KeepsRules.
Context {R : State -> State -> Prop} `{PO : PreOrder State R}.

Lemma keeps_ret {A} (a : A) : keeps R (ret a).
Proof. intros s. reflexivity. Qed.

Lemma keeps_throw {A} (e : Error) : keeps R (@throw A e).
Proof. intros s. reflexivity. Qed.

Lemma keeps_bind {A B} (m : M A) (k : A -> M B) :
  keeps R m -> (forall a, keeps R (k a)) -> keeps R (bindM m k).
Proof.
  intros Hm Hk s. unfold bindM. specialize (Hm s).
  destruct (m s) as [[a|e] s1]; simpl in *; [|exact Hm].
  etransitivity; [exact Hm| apply Hk].
Qed.

Lemma keeps_catch {A} (m : M A) (h : Error -> M A) :
  keeps R m -> (forall e, keeps R (h e)) -> keeps R (catchM m h).
Proof.
  intros Hm Hh s. unfold catchM. specialize (Hm s).
  destruct (m s) as [[a|e] s1]; simpl in *; [exact Hm|].
  etransitivity; [exact Hm| apply Hh].
Qed.

Lemma keeps_wrap {A} ctx (m : M A) : keeps R m -> keeps R (wrapErr ctx m).
Proof. intros Hm. apply keeps_catch; [exact Hm|]. intros e. apply keeps_throw. Qed.

Lemma keeps_db {A} op (k : State -> Res A * State) :
  (forall s f rest, R s (log_call op f rest s)) ->
  (forall s u, R s (race_insert u s)) ->
  (forall s, R s (snd (k s))) ->
  keeps R (db_op op k).
Proof.
  intros Hlog Hrace Hk s. unfold db_op.
  destruct (next_fault s) as [f rest]. destruct f; simpl.
  - etransitivity; [apply Hlog|apply Hk].
  - apply Hlog.
  - etransitivity; [apply Hlog|]. etransitivity; [apply Hrace|apply Hk].
Qed.
End KeepsRules.

Ltac keeps_step :=
  match goal with
  | |- keeps _ (bindM _ _) => apply keeps_bind; [|intros ?]
  | |- keeps _ (catchM _ _) => apply keeps_catch; [|intros ?]
  | |- keeps _ (wrapErr _ _) => apply keeps_wrap
  | |- keeps _ (ret _) => apply keeps_ret
  | |- keeps _ (throw _) => apply keeps_throw
  | |- keeps _ (if ?b then _ else _) => destruct b
  | |- keeps _ (match ?x with _ => _ end) => destruct x
  end.

(** *** The token frame *)

#[local] Instance tok_frame_preorder : PreOrder tok_frame.
Proof.
  split.
  - intros s. repeat split.
  - intros s1 s2 s3 (?&?&?&?) (?&?&?&?). repeat split; congruence.
Qed.

Lemma tok_frame_log op f rest s : tok_frame s (log_call op f rest s).
Proof. repeat split. Qed.

Lemma tok_frame_race s u : tok_frame s (race_insert u s).
Proof. unfold race_insert. destruct (st_prefs s !! u); repeat split. Qed.

Ltac tok_db := apply keeps_db; [intros; apply tok_frame_log|intros; apply tok_frame_race|intros ?s; simpl].

Lemma tok_frame_get_or_create u : keeps tok_frame (get_or_create u).
Proof.
  unfold get_or_create, findOnePrefs, createDefault.
  repeat (keeps_step || tok_db); try reflexivity.
  match goal with |- context [st_prefs ?s !! u] => destruct (st_prefs s !! u) end;
    simpl; [reflexivity|repeat split].
Qed.

Lemma tok_frame_shouldSend v c ch : keeps tok_frame (shouldSendNotification v c ch).
Proof.
  unfold shouldSendNotification.
  repeat (keeps_step || apply tok_frame_get_or_create).
Qed.

(** *** Runs that only call the preference store *)

#[local] Instance pref_calls_only_preorder : PreOrder pref_calls_only.
Proof.
  split.
  - intros s. exists []. split; [reflexivity|constructor].
  - intros s1 s2 s3 (l1 & H1 & F1) (l2 & H2 & F2). exists (l2 ++ l1).
    split; [rewrite H2, H1, app_assoc; reflexivity|apply Forall_app; split; assumption].
Qed.

Lemma pref_calls_race s u : pref_calls_only s (race_insert u s).
Proof.
  unfold race_insert. destruct (st_prefs s !! u); [reflexivity|].
  exists []. split; [reflexivity|constructor].
Qed.

Lemma pref_calls_log op f rest s :
  is_pref_op (op, f) -> pref_calls_only s (log_call op f rest s).
Proof. intros H. exists [(op, f)]. split; [reflexivity|repeat constructor; exact H]. Qed.

Ltac pref_db := apply keeps_db;
  [intros; apply pref_calls_log; exact I|intros; apply pref_calls_race|intros ?s; simpl].

Lemma pref_calls_get_or_create u : keeps pref_calls_only (get_or_create u).
Proof.
  unfold get_or_create, findOnePrefs, createDefault.
  repeat (keeps_step || pref_db); try reflexivity.
  match goal with |- context [st_prefs ?s !! u] => destruct (st_prefs s !! u) end;
    simpl; [reflexivity|].
  exists []. split; [reflexivity|constructor].
Qed.

Lemma pref_calls_shouldSend v c ch : keeps pref_calls_only (shouldSendNotification v c ch).
Proof.
  unfold shouldSendNotification.
  repeat (keeps_step || apply pref_calls_get_or_create).
Qed.

(** *** Blank user ids *)

Lemma trim_start_ws_app w r : In w js_ws_chars -> trim_start (w ++ r) = trim_start r.
Proof. simpl. intros H; repeat destruct H as [<-|H]; try reflexivity. contradiction. Qed.

Lemma trim_start_ws w : In w js_ws_chars -> trim_start w = "".
Proof. simpl. intros H; repeat destruct H as [<-|H]; try reflexivity. contradiction. Qed.

(** A string made only of JS white space trims to the empty string. *)
Lemma trim_blank ws : Forall (fun w => In w js_ws_chars) ws -> trim (String.concat "" ws) = "".
Proof.
  intros H. unfold trim. enough (E : trim_start (String.concat "" ws) = "") by (rewrite E; reflexivity).
  induction H as [|w ws Hw Hws IH]; [reflexivity|].
  destruct ws as [|w' ws'].
  - apply trim_start_ws, Hw.
  - change (String.concat "" (w :: w' :: ws')) with (w ++ String.concat "" (w' :: ws'))%string.
    rewrite trim_start_ws_app by exact Hw. exact IH.
Qed.

Lemma invalid_userId_blank ws :
  Forall (fun w => In w js_ws_chars) ws -> invalid_userId (JStr (String.concat "" ws)) = true.
Proof. intros H. unfold invalid_userId. rewrite (trim_blank ws H). simpl. apply orb_true_r. Qed.

(** *** C7: the gate fails closed on a missing or blank user id *)

(** Claim C7: for every category and channel, an empty, blank or non-string
    [userId] makes [shouldSendNotification] return false, and the store
    (records, call log, fault schedule) is left exactly as it was: no
    preference record is read or created.  Blank covers every string made
    only of JS white space, the Unicode spaces (no-break space, ideographic
    space, ...) included. *)
Theorem shouldSend_invalid_userId (v : jsval) (c : Category) (ch : Channel) (s : State) :
  (invalid_userId v = true ->
   shouldSendNotification v c ch s = (Ok false, s))
  /\ (forall ws, Forall (fun w => In w js_ws_chars) ws ->
      shouldSendNotification (JStr (String.concat "" ws)) c ch s = (Ok false, s)).
Proof.
  split.
  - intros H. unfold shouldSendNotification, catchM. rewrite H. reflexivity.
  - intros ws Hws. unfold shouldSendNotification, catchM. rewrite (invalid_userId_blank ws Hws).
    reflexivity.
Qed.

Lemma shouldSend_invalid_userId_witness :
  invalid_userId (JStr nbsp) = true /\
  shouldSendNotification (JStr nbsp) CTaskUpdates ChPush store3 = (Ok false, store3).
Proof.
  assert (H : invalid_userId (JStr nbsp) = true) by reflexivity.
  split; [exact H|].
  exact (proj1 (shouldSend_invalid_userId (JStr nbsp) CTaskUpdates ChPush store3) H).
Defined.

(** *** C10: preferences of an invalid user id *)

(** Claim C10: for an empty, blank or non-string [userId], [getPreferences]
    returns the documented defaults and leaves the store untouched (no read,
    no write, no default record created).  Blank covers every string made
    only of JS white space, the Unicode spaces included. *)
Theorem getPreferences_invalid_userId (v : jsval) (s : State) :
  (invalid_userId v = true -> getPreferences v s = (Ok defaultPrefs, s))
  /\ (forall ws, Forall (fun w => In w js_ws_chars) ws ->
      getPreferences (JStr (String.concat "" ws)) s = (Ok defaultPrefs, s)).
Proof.
  split.
  - intros H. unfold getPreferences, wrapErr, catchM. rewrite H. reflexivity.
  - intros ws Hws. unfold getPreferences, wrapErr, catchM. rewrite (invalid_userId_blank ws Hws).
    reflexivity.
Qed.

Lemma getPreferences_invalid_userId_witness :
  invalid_userId (JStr (nbsp ++ " ")) = true
  /\ getPreferences (JStr (nbsp ++ " ")) store3 = (Ok defaultPrefs, store3)
  /\ invalid_userId (JNum 42) = true /\ getPreferences (JNum 42) store3 = (Ok defaultPrefs, store3).
Proof.
  assert (H1 : invalid_userId (JStr (nbsp ++ " ")) = true) by reflexivity.
  assert (H2 : invalid_userId (JNum 42) = true) by reflexivity.
  split; [exact H1|split; [exact (proj1 (getPreferences_invalid_userId _ store3) H1)|]].
  split; [exact H2|exact (proj1 (getPreferences_invalid_userId _ store3) H2)].
Defined.

(** *** C8: a denied send reads no token *)

(** Claim C8: when the preference check denies the push, [sendPushNotification]
    returns [{success: true, sent: 0, failed: 0}] in the state the check left,
    so the token collection is unchanged and every call made was a call to the
    preference store (no token read, no transport call). *)
Theorem sendPush_denied (v : jsval) (n : Notification) (s s1 : State) :
  shouldSendNotification v (notif_category n) ChPush s = (Ok false, s1) ->
  sendPushNotification v n s = (Ok (mkPushResult true 0 0), s1)
  /\ st_tokens s1 = st_tokens s /\ pref_calls_only s s1.
Proof.
  intros H. pose proof (tok_frame_shouldSend v (notif_category n) ChPush s) as Ht.
  pose proof (pref_calls_shouldSend v (notif_category n) ChPush s) as Hp.
  rewrite H in Ht, Hp. simpl in Ht, Hp.
  split; [|split; [apply Ht|exact Hp]].
  unfold sendPushNotification, wrapErr, catchM, bindM. rewrite H. reflexivity.
Qed.

Lemma sendPush_denied_witness :
  shouldSendNotification (JStr "u") (notif_category plain_notification) ChPush store_denied
    = (Ok false, snd (shouldSendNotification (JStr "u") CTaskUpdates ChPush store_denied))
  /\ sendPushNotification (JStr "u") plain_notification store_denied
    = (Ok (mkPushResult true 0 0), snd (shouldSendNotification (JStr "u") CTaskUpdates ChPush store_denied)).
Proof.
  split; [vm_compute; reflexivity|].
  apply (sendPush_denied (JStr "u") plain_notification store_denied). vm_compute. reflexivity.
Defined.

(** *** Results under an invariant *)

(** From a store satisfying [P], [m] ends in a store satisfying [P] and any
    value it returns satisfies [Q]. *)
Definition keeps_res {A} (P : State -> Prop) (Q : A -> Prop) (m : M A) : Prop :=
  forall s, P s -> P (snd (m s)) /\ forall a, fst (m s) = Ok a -> Q a.

Section KeepsRes.
Variable P : State -> Prop.

Lemma kr_ret {A} (Q : A -> Prop) a : Q a -> keeps_res P Q (ret a).
Proof. intros HQ s Hs. split; [exact Hs|]. intros a' [= <-]. exact HQ. Qed.

Lemma kr_throw {A} (Q : A -> Prop) e : keeps_res P Q (throw e).
Proof. intros s Hs. split; [exact Hs|]. intros a' [=]. Qed.

Lemma kr_bind {A B} (Q1 : A -> Prop) (Q : B -> Prop) m k :
  keeps_res P Q1 m -> (forall a, Q1 a -> keeps_res P Q (k a)) -> keeps_res P Q (bindM m k).
Proof.
  intros Hm Hk s Hs. unfold bindM. destruct (Hm s Hs) as [Hs1 Ha].
  destruct (m s) as [[a|e] s1]; simpl in *.
  - apply (Hk a (Ha a eq_refl)); exact Hs1.
  - split; [exact Hs1|]. intros b [=].
Qed.

Lemma kr_catch {A} (Q : A -> Prop) m h :
  keeps_res P Q m -> (forall e, keeps_res P Q (h e)) -> keeps_res P Q (catchM m h).
Proof.
  intros Hm Hh s Hs. unfold catchM. destruct (Hm s Hs) as [Hs1 Ha].
  destruct (m s) as [[a|e] s1]; simpl in *.
  - split; [exact Hs1|exact Ha].
  - apply Hh; exact Hs1.
Qed.

Lemma kr_wrap {A} (Q : A -> Prop) ctx m : keeps_res P Q m -> keeps_res P Q (wrapErr ctx m).
Proof. intros Hm. apply kr_catch; [exact Hm|]. intros e. apply kr_throw. Qed.

Lemma kr_db {A} (Q : A -> Prop) op k :
  (forall s f rest, P s -> P (log_call op f rest s)) ->
  (forall s u, P s -> P (race_insert u s)) ->
  (forall s, P s -> P (snd (k s)) /\ forall a, fst (k s) = Ok a -> Q a) ->
  keeps_res P Q (db_op op k).
Proof.
  intros Hlog Hrace Hk s Hs. unfold db_op.
  destruct (next_fault s) as [f rest]. destruct f; simpl.
  - apply Hk, Hlog, Hs.
  - split; [apply Hlog, Hs|]. intros a [=].
  - apply Hk, Hrace, Hlog, Hs.
Qed.
End KeepsRes.

(** *** The [transactional.push] invariant *)

Lemma inv_log op f rest s : trans_push_inv s -> trans_push_inv (log_call op f rest s).
Proof. exact id. Qed.

Lemma inv_insert s u p :
  trans_push_inv s -> push (transactional p) = true ->
  map_Forall (fun _ p => push (transactional p) = true) (<[u := p]> (st_prefs s)).
Proof. intros Hs Hp. apply map_Forall_insert_2; assumption. Qed.

Lemma inv_race s u : trans_push_inv s -> trans_push_inv (race_insert u s).
Proof.
  unfold race_insert. destruct (st_prefs s !! u); [exact id|].
  intros Hs. apply inv_insert; [exact Hs|reflexivity].
Qed.

#[local] Instance inv_rel_preorder : PreOrder inv_rel.
Proof. split; [intros s H; exact H|intros s1 s2 s3 H1 H2 H; exact (H2 (H1 H))]. Qed.

Lemma apply_patch_push p q :
  push (transactional p) = true -> push (transactional (apply_patch p q)) = true.
Proof. intros Hp. unfold apply_patch. simpl. destruct (pt_transactional q); simpl; auto. Qed.

Definition some_ok (o : option Prefs) : Prop :=
  forall p, o = Some p -> push (transactional p) = true.

Ltac kr_db_tac := apply kr_db;
  [intros; apply inv_log; assumption|intros; apply inv_race; assumption|intros ?s ?Hs; simpl].

Lemma get_or_create_kr u : keeps_res trans_push_inv some_ok (get_or_create u).
Proof.
  unfold get_or_create, findOnePrefs, createDefault.
  apply (kr_bind _ some_ok).
  { kr_db_tac. split; [exact Hs|]. intros o [= <-] p Hp. exact (map_Forall_lookup_1 _ _ _ _ Hs Hp). }
  intros [p|] Hp.
  - apply kr_ret. exact Hp.
  - apply kr_catch.
    + apply (kr_bind _ (fun p => push (transactional p) = true)).
      * kr_db_tac. destruct (st_prefs s !! u); simpl.
        -- split; [exact Hs|]. intros a [=].
        -- split; [apply inv_insert; [exact Hs|reflexivity]|]. intros a [= <-]. reflexivity.
      * intros q Hq. apply kr_ret. intros p' [= <-]. exact Hq.
    + intros e. destruct (is_dup_key e); [|apply kr_throw].
      kr_db_tac. split; [exact Hs|]. intros o [= <-] p Hp'.
      exact (map_Forall_lookup_1 _ _ _ _ Hs Hp').
Qed.

Lemma updatePreferences_kr v q :
  keeps_res trans_push_inv (fun p => push (transactional p) = true) (updatePreferences v q).
Proof.
  unfold updatePreferences. apply kr_wrap.
  destruct (invalid_userId v); [apply kr_throw|].
  destruct v; try apply kr_throw.
  apply (kr_bind _ some_ok); [apply get_or_create_kr|].
  intros [p|] Hp.
  - apply (kr_bind _ (fun _ => True)).
    + unfold savePrefs. kr_db_tac. split; [|intros; exact I].
      apply inv_insert; [exact Hs|]. apply apply_patch_push, Hp. reflexivity.
    + intros _ _. apply kr_ret. apply apply_patch_push, Hp. reflexivity.
  - destruct (patch_nonempty q); [apply kr_throw|]. apply kr_ret. reflexivity.
Qed.

Lemma kr_keeps {A} (Q : A -> Prop) (m : M A) :
  keeps_res trans_push_inv Q m -> keeps inv_rel m.
Proof. intros H s Hs. exact (proj1 (H s Hs)). Qed.

Ltac inv_db := apply keeps_db;
  [intros ? ? ? ?H; exact H|intros; intros ?H; apply inv_race, H
  |intros ?s; unfold inv_rel;
   first [intros ?H; exact H|destruct (existsb _ _); intros ?H; exact H]].

Ltac inv_leaf :=
  match goal with
  | |- keeps inv_rel new_id => intros ?s ?H; exact H
  | |- keeps inv_rel current_time => intros ?s ?H; exact H
  end.

Lemma inv_shouldSend v c ch : keeps inv_rel (shouldSendNotification v c ch).
Proof.
  unfold shouldSendNotification.
  repeat (keeps_step || apply (kr_keeps _ _ (get_or_create_kr _))).
Qed.

Lemma inv_getPreferences v : keeps inv_rel (getPreferences v).
Proof.
  unfold getPreferences.
  repeat (keeps_step || apply (kr_keeps _ _ (get_or_create_kr _))).
Qed.

Lemma inv_sendPush v n : keeps inv_rel (sendPushNotification v n).
Proof.
  unfold sendPushNotification, getUserFCMTokens, sendEachForMulticast,
    updateManyLastActive, deleteManyTokens.
  repeat (keeps_step || apply inv_shouldSend || inv_db || inv_leaf).
Qed.

Lemma inv_batch_loop ids n a b : keeps inv_rel (batch_loop ids n a b).
Proof.
  revert a b. induction ids as [|u ids IH]; intros a b; simpl.
  - apply keeps_ret.
  - apply keeps_bind; [|intros; apply IH].
    apply keeps_catch; [|intros; apply keeps_ret].
    apply keeps_bind; [apply inv_sendPush|intros; apply keeps_ret].
Qed.

Lemma inv_send_loop ids n a b : keeps inv_rel (send_loop ids n a b).
Proof.
  revert a b. induction ids as [|u ids IH]; intros a b; simpl.
  - apply keeps_ret.
  - apply keeps_bind; [|intros; apply IH].
    apply keeps_catch; [|intros; apply keeps_ret].
    apply keeps_bind; [apply inv_sendPush|intros; apply keeps_ret].
Qed.

Lemma inv_registerToken u t pl d : keeps inv_rel (registerToken u t pl d).
Proof.
  unfold registerToken, findOneToken, saveExistingToken, createToken,
    delete_same_device, insertToken.
  repeat (keeps_step || inv_db || inv_leaf).
Qed.

Lemma inv_sendNotification b : keeps inv_rel (sendNotification b).
Proof.
  unfold sendNotification.
  repeat (keeps_step || apply inv_send_loop).
Qed.

Lemma reachable_inv s : Reachable s -> trans_push_inv s.
Proof.
  induction 1 as [now fcm|s now fcm sched _ IH|s v c ch _ IH|s v _ IH|s v q _ IH
                 |s v n _ IH|s ids n _ IH|s u t pl d _ IH|s b _ IH].
  - apply map_Forall_empty.
  - exact IH.
  - exact (inv_shouldSend v c ch s IH).
  - exact (inv_getPreferences v s IH).
  - exact (kr_keeps _ _ (updatePreferences_kr v q) s IH).
  - exact (inv_sendPush v n s IH).
  - unfold sendToMultipleUsers.
    apply (keeps_bind _ _ (inv_batch_loop ids n 0 0) (fun _ => keeps_ret _) s IH).
  - exact (inv_registerToken u t pl d s IH).
  - exact (inv_sendNotification b s IH).
Qed.

(** *** C2: [transactional.push] cannot be disabled *)

(** Claim C2: in every reachable store, a successful [updatePreferences]
    call, whatever partial preferences it was given (including
    [transactional.push = false]), returns preferences with
    [transactional.push = true] and leaves every stored record, the user's
    own included, with [transactional.push = true]. *)
Theorem updatePreferences_transactional_push (s : State) (v : jsval) (q : PrefsPatch)
    (r : Prefs) (s' : State) :
  Reachable s ->
  updatePreferences v q s = (Ok r, s') ->
  push (transactional r) = true
  /\ forall u p, st_prefs s' !! u = Some p -> push (transactional p) = true.
Proof.
  intros Hr Hu. destruct (updatePreferences_kr v q s (reachable_inv s Hr)) as [Hs' Hres].
  rewrite Hu in Hs', Hres. simpl in Hs', Hres.
  split; [apply Hres; reflexivity|]. intros u p Hp. exact (map_Forall_lookup_1 _ _ _ _ Hs' Hp).
Qed.

Lemma updatePreferences_transactional_push_witness :
  Reachable (empty_store 0 all_ok) /\
  updatePreferences (JStr "u") patch_trans_off (empty_store 0 all_ok)
    = (Ok (apply_patch defaultPrefs patch_trans_off),
       snd (updatePreferences (JStr "u") patch_trans_off (empty_store 0 all_ok))) /\
  push (transactional (apply_patch defaultPrefs patch_trans_off)) = true.
Proof.
  assert (Hr : Reachable (empty_store 0 all_ok)) by apply R_init.
  assert (Hu : updatePreferences (JStr "u") patch_trans_off (empty_store 0 all_ok)
    = (Ok (apply_patch defaultPrefs patch_trans_off),
       snd (updatePreferences (JStr "u") patch_trans_off (empty_store 0 all_ok))))
    by (vm_compute; reflexivity).
  split; [exact Hr|split; [exact Hu|]].
  exact (proj1 (updatePreferences_transactional_push _ _ _ _ _ Hr Hu)).
Defined.

(** *** Inversion of successful runs *)

Lemma bind_ok {A B} (m : M A) (k : A -> M B) s b s' :
  bindM m k s = (Ok b, s') -> exists a s1, m s = (Ok a, s1) /\ k a s1 = (Ok b, s').
Proof.
  unfold bindM. destruct (m s) as [[a|e] s1]; intros H; [eauto|discriminate].
Qed.

Lemma catch_throw_ok {A} (m : M A) (f : Error -> Error) s a s' :
  catchM m (fun e => throw (f e)) s = (Ok a, s') -> m s = (Ok a, s').
Proof. unfold catchM, throw. destruct (m s) as [[x|e] s1]; intros H; [exact H|discriminate]. Qed.

Lemma db_op_ok {A} op (k : State -> Res A * State) s a s' :
  db_op op k s = (Ok a, s') -> exists s1, tok_frame s s1 /\ k s1 = (Ok a, s').
Proof.
  unfold db_op. destruct (next_fault s) as [f rest]. destruct f as [|c|u]; intros H.
  - eexists. split; [apply tok_frame_log|exact H].
  - discriminate.
  - eexists. split; [|exact H]. etransitivity; [apply tok_frame_log|apply tok_frame_race].
Qed.

(** *** List facts for the fan-out *)

Lemma insert_desc_in x r l : In x (insert_desc r l) <-> r = x \/ In x l.
Proof.
  induction l as [|y l IH]; simpl; [tauto|].
  destruct (tr_lastActive y <? tr_lastActive r)%nat; simpl; [tauto|].
  rewrite IH. tauto.
Qed.

Lemma sort_desc_in x l : In x (sort_desc l) <-> In x l.
Proof.
  induction l as [|y l IH]; simpl; [tauto|]. rewrite insert_desc_in, IH. tauto.
Qed.

Lemma user_tokens_in u l x : In x (user_tokens u l) <-> In x l /\ tr_userId x = u.
Proof.
  unfold user_tokens. rewrite sort_desc_in, filter_In. 
  split; intros [H1 H2]; split; try assumption; [apply String.eqb_eq|apply String.eqb_eq]; assumption.
Qed.

Lemma select_tokens_map (sel : Outcome -> bool) (g : string -> Outcome) (l : list TokenRec) :
  select_tokens sel l (map (fun x => g (tr_token x)) l)
  = map tr_token (List.filter (fun x => sel (g (tr_token x))) l).
Proof.
  induction l as [|x l IH]; simpl; [reflexivity|]. rewrite IH.
  destruct (sel (g (tr_token x))); reflexivity.
Qed.

Lemma truthy_strings_id l : Forall (fun t => t <> "") l -> truthy_strings l = l.
Proof.
  induction 1 as [|t l Ht _ IH]; simpl; [reflexivity|].
  destruct (String.eqb_spec t ""); [contradiction|]. simpl. rewrite IH. reflexivity.
Qed.

Lemma mem_str_spec t l : mem_str t l = true <-> In t l.
Proof.
  unfold mem_str. rewrite existsb_exists. split.
  - intros (x & Hx & He). apply String.eqb_eq in He. subst. exact Hx.
  - intros H. exists t. split; [exact H|apply String.eqb_refl].
Qed.

Lemma length_filter_map {X Y} (f : Y -> bool) (g : X -> Y) (l : list X) :
  length (List.filter f (map g l)) = length (List.filter (fun x => f (g x)) l).
Proof.
  induction l as [|x l IH]; simpl; [reflexivity|].
  destruct (f (g x)); simpl; rewrite ?IH; reflexivity.
Qed.

Lemma map_touch_nil now l :
  map (fun r => if mem_str (tr_token r) [] then touch now r else r) l = l.
Proof. rewrite <- (map_id l) at 2. apply map_ext. intros a. reflexivity. Qed.

Lemma filter_mem_nil (l : list TokenRec) :
  List.filter (fun r => negb (mem_str (tr_token r) [])) l = l.
Proof.
  assert (H : forall (f : TokenRec -> bool) l', (forall x, f x = true) -> List.filter f l' = l').
  { intros f l' Hf. induction l' as [|x l' IH]; simpl; [reflexivity|]. rewrite Hf, IH. reflexivity. }
  apply H. intros x. reflexivity.
Qed.

Lemma nodup_token_inj l a b :
  NoDup (map tr_token l) -> In a l -> In b l -> tr_token a = tr_token b -> a = b.
Proof.
  induction l as [|x l IH]; simpl; [tauto|]. intros Hnd Ha Hb He.
  inversion Hnd as [|? ? Hnin Hnd']; subst.
  destruct Ha as [<-|Ha], Hb as [<-|Hb]; try reflexivity.
  - exfalso. apply Hnin. rewrite He. apply list_elem_of_In, in_map, Hb.
  - exfalso. apply Hnin. rewrite <- He. apply list_elem_of_In, in_map, Ha.
  - apply IH; assumption.
Qed.

(** *** The shape of a successful fan-out *)

Lemma sendPush_ok_shape (s : State) (u : string) (n : Notification) (r : PushResult) (s' : State) :
  fst (shouldSendNotification (JStr u) (notif_category n) ChPush s) = Ok true ->
  user_tokens u (st_tokens s) <> [] ->
  sendPushNotification (JStr u) n s = (Ok r, s') ->
  let ts := user_tokens u (st_tokens s) in
  let rs := map (st_fcm s) (map tr_token ts) in
  let ok_ts := truthy_strings (select_tokens is_success ts rs) in
  let bad_ts := truthy_strings (select_tokens
                  (fun o => negb (is_success o) && is_invalid_token_error o)%bool ts rs) in
  r = mkPushResult (0 <? successCount rs)%nat (successCount rs) (failureCount rs)
  /\ st_tokens s' = List.filter (fun x => negb (mem_str (tr_token x) bad_ts))
                      (map (fun x => if mem_str (tr_token x) ok_ts then touch (st_now s) x else x)
                           (st_tokens s)).
Proof.
  intros Hg Hne H. unfold sendPushNotification, wrapErr in H. apply catch_throw_ok in H.
  apply bind_ok in H as (ok & s1 & Hs & H).
  pose proof (tok_frame_shouldSend (JStr u) (notif_category n) ChPush s) as Hf1.
  rewrite Hs in Hg, Hf1. simpl in Hg, Hf1. injection Hg as ->. simpl in H.
  destruct Hf1 as (Ht1 & Hc1 & Hn1 & _).
  apply bind_ok in H as (tks & s2 & Hget & H).
  unfold getUserFCMTokens in Hget. apply catch_throw_ok, db_op_ok in Hget as (s2' & Hf2 & Hk).
  injection Hk as <- <-. destruct Hf2 as (Ht2 & Hc2 & Hn2 & _).
  rewrite Ht2, Ht1 in H.
  destruct (user_tokens u (st_tokens s)) as [|t0 ts0] eqn:Ets; [contradiction|].
  apply bind_ok in H as (rs & s3 & Hmc & H).
  unfold sendEachForMulticast in Hmc. apply db_op_ok in Hmc as (s3' & Hf3 & Hk).
  injection Hk as <- <-. destruct Hf3 as (Ht3 & Hc3 & Hn3 & _).
  rewrite Hc3, Hc2, Hc1 in H.
  apply bind_ok in H as (x1 & s4 & Hup & H).
  assert (Hs4 : st_tokens s4 = map (fun x => if mem_str (tr_token x)
                   (truthy_strings (select_tokens is_success (t0 :: ts0)
                      (map (st_fcm s) (map tr_token (t0 :: ts0))))) then touch (st_now s) x else x)
                   (st_tokens s) /\ st_now s4 = st_now s).
  { match type of Hup with ((if ?g then _ else _) _ = _) => destruct g eqn:Eok end.
    - unfold updateManyLastActive in Hup. apply db_op_ok in Hup as (s4' & Hf4 & Hk).
      injection Hk as _ <-. destruct Hf4 as (Ht4 & Hc4 & Hn4 & _). simpl.
      rewrite Ht4, Hn4, Ht3, Ht2, Ht1, Hn3, Hn2, Hn1. split; reflexivity.
    - injection Hup as _ <-. apply negb_false_iff, Nat.eqb_eq, length_zero_iff_nil in Eok.
      cbn [map] in Eok |- *. rewrite Eok, map_touch_nil, Ht3, Ht2, Ht1, Hn3, Hn2, Hn1. split; reflexivity. }
  destruct Hs4 as [Hs4 Hn4].
  apply bind_ok in H as (x2 & s5 & Hdel & H).
  injection H as <- <-.
  split; [reflexivity|].
  match type of Hdel with ((if ?g then _ else _) _ = _) => destruct g eqn:Ebad end.
  - unfold deleteManyTokens in Hdel. apply db_op_ok in Hdel as (s5' & Hf5 & Hk).
    injection Hk as _ <-. destruct Hf5 as (Ht5 & _). simpl. rewrite Ht5, Hs4. reflexivity.
  - injection Hdel as _ <-. apply negb_false_iff, Nat.eqb_eq, length_zero_iff_nil in Ebad.
    rewrite Hs4. cbn [map] in Ebad |- *. rewrite Ebad, filter_mem_nil. reflexivity.
Qed.

Lemma is_success_true o : is_success o = true -> o = OSuccess.
Proof. destruct o; simpl; congruence. Qed.

Lemma invalid_not_success o : is_invalid_token_error o = true -> is_success o = false.
Proof. destruct o; simpl; congruence. Qed.

(** *** C1: fan-out accounting and token pruning *)

(** Claim C1: when the preference gate allows the send and the user has
    device tokens, a returned result has [sent] = number of tokens whose
    transport outcome is a success and [failed] = number of failures of any
    cause; every success token is kept with its last-active time set to the
    current time; no record keeps the token string of a token reported
    invalid or unregistered; every other record (transient failures, other
    users' tokens) is left as it was; and the collection gains nothing else.
    The token collection is assumed well formed (unique, non-empty token
    strings: the unique index and the required validator). *)
Theorem sendPush_fanout (s : State) (u : string) (n : Notification) (r : PushResult) (s' : State) :
  tokens_wf (st_tokens s) ->
  fst (shouldSendNotification (JStr u) (notif_category n) ChPush s) = Ok true ->
  user_tokens u (st_tokens s) <> [] ->
  sendPushNotification (JStr u) n s = (Ok r, s') ->
  let ts := user_tokens u (st_tokens s) in
  let out := fun x => st_fcm s (tr_token x) in
  pr_sent r = length (List.filter (fun x => is_success (out x)) ts)
  /\ pr_failed r = length (List.filter (fun x => negb (is_success (out x))) ts)
  /\ (forall x, In x ts -> out x = OSuccess -> In (touch (st_now s) x) (st_tokens s'))
  /\ (forall x, In x ts -> is_invalid_token_error (out x) = true ->
        forall y, In y (st_tokens s') -> tr_token y <> tr_token x)
  /\ (forall x, In x (st_tokens s) ->
        ~ In x ts \/ (is_success (out x) = false /\ is_invalid_token_error (out x) = false) ->
        In x (st_tokens s'))
  /\ (forall y, In y (st_tokens s') ->
        exists x, In x (st_tokens s)
                  /\ (y = x \/ (y = touch (st_now s) x /\ In x ts /\ out x = OSuccess))).
Proof.
  intros [Hnd Hne0] Hg Hne H ts out.
  destruct (sendPush_ok_shape s u n r s' Hg Hne H) as [Hr Hs']. clear H Hg.
  fold ts in Hr, Hs'.
  rewrite map_map, !select_tokens_map in Hs'. rewrite map_map in Hr. fold out in Hr, Hs'.
  assert (Hts : forall x, In x ts -> In x (st_tokens s)).
  { intros x Hx. apply user_tokens_in in Hx. apply Hx. }
  assert (Hid : forall f, truthy_strings (map tr_token (List.filter f ts)) = map tr_token (List.filter f ts)).
  { intros f. apply truthy_strings_id. apply Forall_forall. intros t Ht.
    apply list_elem_of_In, in_map_iff in Ht as (x & <- & Hx). apply filter_In in Hx as [Hx _].
    rewrite Forall_forall in Hne0. apply Hne0, list_elem_of_In, Hts, Hx. }
  rewrite !Hid in Hs'. clear Hid.
  assert (Hmem : forall f t, mem_str t (map tr_token (List.filter f ts)) = true <->
                  exists x, In x ts /\ f x = true /\ tr_token x = t).
  { intros f t. rewrite mem_str_spec, in_map_iff. split.
    - intros (x & Ht & Hx). apply filter_In in Hx. exists x. tauto.
    - intros (x & Hx & Hf & Ht). exists x. split; [exact Ht|]. apply filter_In. tauto. }
  assert (Huniq : forall x y, In x (st_tokens s) -> In y (st_tokens s) -> tr_token x = tr_token y -> x = y).
  { intros x y. apply nodup_token_inj, Hnd. }
  split; [rewrite Hr; simpl; unfold successCount; apply length_filter_map|].
  split; [rewrite Hr; simpl; unfold failureCount; apply (length_filter_map (fun o => negb (is_success o)))|].
  rewrite Hs'. clear Hs' Hr.
  set (okL := map tr_token (List.filter (fun x1 => is_success (st_fcm s (tr_token x1))) ts)).
  set (badL := map tr_token (List.filter (fun x1 => negb (is_success (st_fcm s (tr_token x1)))
                                                  && is_invalid_token_error (st_fcm s (tr_token x1)))%bool ts)).
  assert (Hok : forall t, mem_str t okL = true <->
                  exists x, In x ts /\ is_success (out x) = true /\ tr_token x = t) by apply Hmem.
  assert (Hbad : forall t, mem_str t badL = true <->
                  exists x, In x ts /\ (negb (is_success (out x)) && is_invalid_token_error (out x))%bool = true
                            /\ tr_token x = t) by apply Hmem.
  clearbody okL badL. clear Hmem.
  assert (Htok : forall x, tr_token (if mem_str (tr_token x) okL then touch (st_now s) x else x) = tr_token x)
    by (intros x; destruct (mem_str _ _); reflexivity).
  split; [|split; [|split]].
  - intros x Hx Hs. apply filter_In. split.
    + apply in_map_iff. exists x. split; [|apply Hts, Hx].
      destruct (mem_str (tr_token x) okL) eqn:E; [reflexivity|].
      exfalso. assert (Hm : mem_str (tr_token x) okL = true)
        by (apply Hok; exists x; rewrite Hs; auto). congruence.
    + simpl. apply negb_true_iff. destruct (mem_str (tr_token x) badL) eqn:E; [|reflexivity].
      apply Hbad in E as (z & Hz & Hb & Ht). unfold out in Hb, Hs. rewrite Ht, Hs in Hb. discriminate.
  - intros x Hx Hinv y Hy Heq. apply filter_In in Hy as [_ Hy].
    apply negb_true_iff in Hy.
    assert (Hm : mem_str (tr_token y) badL = true).
    { apply Hbad. exists x. split; [exact Hx|split; [|symmetry; exact Heq]].
      unfold out in *. rewrite Hinv, (invalid_not_success _ Hinv). reflexivity. }
    congruence.
  - intros x Hx Hcase. apply filter_In. split.
    + apply in_map_iff. exists x. split; [|exact Hx].
      destruct (mem_str (tr_token x) okL) eqn:E; [|reflexivity].
      apply Hok in E as (z & Hz & Hs & Ht). destruct Hcase as [Hnin|[Hns _]].
      * assert (z = x) by (apply Huniq; auto). subst z. contradiction.
      * unfold out in Hs, Hns. rewrite Ht, Hns in Hs. discriminate.
    + cbv beta. apply negb_true_iff. destruct (mem_str (tr_token x) badL) eqn:E; [|reflexivity].
      apply Hbad in E as (z & Hz & Hb & Ht). destruct Hcase as [Hnin|[_ Hni]].
      * assert (z = x) by (apply Huniq; auto). subst z. contradiction.
      * unfold out in Hb, Hni. rewrite Ht, Hni in Hb. destruct (negb _); discriminate.
  - intros y Hy. apply filter_In in Hy as [Hy _]. apply in_map_iff in Hy as (x & Hxy & Hx).
    exists x. split; [exact Hx|].
    destruct (mem_str (tr_token x) okL) eqn:E; [|left; symmetry; exact Hxy].
    right. apply Hok in E as (z & Hz & Hs & Ht).
    assert (z = x) by (apply Huniq; auto). subst z.
    split; [symmetry; exact Hxy|split; [exact Hz|apply is_success_true, Hs]].
Qed.

Lemma sendPush_fanout_witness :
  tokens_wf (st_tokens store3)
  /\ fst (shouldSendNotification (JStr "u") (notif_category plain_notification) ChPush store3) = Ok true
  /\ user_tokens "u" (st_tokens store3) <> []
  /\ sendPushNotification (JStr "u") plain_notification store3
     = (Ok (mkPushResult true 1 2), snd (sendPushNotification (JStr "u") plain_notification store3))
  /\ pr_sent (mkPushResult true 1 2)
     = length (List.filter (fun x => is_success (st_fcm store3 (tr_token x)))
                           (user_tokens "u" (st_tokens store3))).
Proof.
  assert (H1 : tokens_wf (st_tokens store3)).
  { split; [apply (bool_decide_unpack _); vm_compute; reflexivity|].
    repeat constructor; simpl; discriminate. }
  assert (H2 : fst (shouldSendNotification (JStr "u") (notif_category plain_notification) ChPush store3)
               = Ok true) by (vm_compute; reflexivity).
  assert (H3 : user_tokens "u" (st_tokens store3) <> []) by (vm_compute; discriminate).
  assert (H4 : sendPushNotification (JStr "u") plain_notification store3
     = (Ok (mkPushResult true 1 2), snd (sendPushNotification (JStr "u") plain_notification store3)))
    by (vm_compute; reflexivity).
  split; [exact H1|split; [exact H2|split; [exact H3|split; [exact H4|]]]].
  exact (proj1 (sendPush_fanout store3 "u" plain_notification _ _ H1 H2 H3 H4)).
Defined.

(** *** C4: batch totals *)

Lemma batch_loop_spec (n : Notification) (ids : list jsval) (a b : nat) (s : State) :
  exists outs s', SeqRun n ids s outs s' /\ length outs = length ids
  /\ batch_loop ids n a b s
     = (Ok (a + sum_nat (map res_sent outs), b + sum_nat (map res_failed outs))%nat, s').
Proof.
  revert a b s. induction ids as [|u ids IH]; intros a b s.
  - exists [], s. split; [constructor|]. split; [reflexivity|]. simpl. rewrite !Nat.add_0_r. reflexivity.
  - simpl. unfold bindM at 1, catchM at 1, bindM at 1.
    destruct (sendPushNotification u n s) as [[p|e] s1] eqn:E; simpl.
    + destruct (IH (a + pr_sent p) (b + pr_failed p) s1)%nat as (outs & s' & Hrun & Hlen & Hl).
      exists (Ok p :: outs), s'. split; [econstructor; eassumption|].
      split; [simpl; rewrite Hlen; reflexivity|]. rewrite Hl. simpl. f_equal. f_equal. f_equal; lia.
    + destruct (IH a (S b) s1) as (outs & s' & Hrun & Hlen & Hl).
      exists (Err e :: outs), s'. split; [econstructor; eassumption|].
      split; [simpl; rewrite Hlen; reflexivity|]. rewrite Hl. simpl. f_equal. f_equal. f_equal; lia.
Qed.

(** Claim C4: [sendToMultipleUsers] runs [sendPushNotification] for every id
    in order (a failure for one id does not stop the others) and returns
    [total] = number of ids, [sent] = sum of the per-user [sent] counts and
    [failed] = sum of the per-user [failed] counts, where a user whose
    dispatch raised counts as exactly one failure. *)
Theorem sendToMultipleUsers_totals (ids : list jsval) (n : Notification) (s : State) :
  exists outs s', SeqRun n ids s outs s' /\ length outs = length ids
  /\ sendToMultipleUsers ids n s
     = (Ok (mkBatchResult (length ids) (sum_nat (map res_sent outs)) (sum_nat (map res_failed outs))), s').
Proof.
  destruct (batch_loop_spec n ids 0 0 s) as (outs & s' & Hrun & Hlen & Hl).
  exists outs, s'. split; [exact Hrun|]. split; [exact Hlen|].
  unfold sendToMultipleUsers, bindM. rewrite Hl. reflexivity.
Qed.

(** The example of the spec: the dispatch for "b" raises, "a" and "c" are
    served, the raise counts once. *)
Example batch_abc :
  exists s1 s2 s3 pa pc e,
    sendPushNotification (JStr "a") plain_notification store_abc = (Ok pa, s1)
    /\ sendPushNotification (JStr "b") plain_notification s1 = (Err e, s2)
    /\ sendPushNotification (JStr "c") plain_notification s2 = (Ok pc, s3)
    /\ pr_sent pa = 1%nat /\ pr_sent pc = 1%nat
    /\ sendToMultipleUsers [JStr "a"; JStr "b"; JStr "c"] plain_notification store_abc
       = (Ok (mkBatchResult 3 2 1), s3).
Proof. do 6 eexists. repeat split; vm_compute; reflexivity. Qed.

(** *** C3: the push-only categories *)

Lemma race_insert_lookup s u' u p :
  st_prefs s !! u = Some p -> st_prefs (race_insert u' s) !! u = Some p.
Proof.
  unfold race_insert. destruct (st_prefs s !! u') eqn:E; intros H; [exact H|].
  simpl. rewrite lookup_insert_ne; [exact H|]. intros ->. congruence.
Qed.

(** A call that does not raise runs its effect on a store that still holds
    every preference record and whose remaining schedule does not raise. *)
Lemma db_op_noraise {A} op (k : State -> Res A * State) s :
  Forall (fun f => is_raise f = false) (st_sched s) ->
  exists s1, db_op op k s = k s1
    /\ Forall (fun f => is_raise f = false) (st_sched s1)
    /\ (forall u p, st_prefs s !! u = Some p -> st_prefs s1 !! u = Some p).
Proof.
  intros Hs. unfold db_op, next_fault. destruct (st_sched s) as [|f rest] eqn:Es.
  - exists (log_call op FOk [] s). split; [reflexivity|]. split; [constructor|]. auto.
  - apply Forall_cons in Hs as [Hf Hr]. destruct f as [|c|u']; [| discriminate |].
    + exists (log_call op FOk rest s). split; [reflexivity|]. split; [exact Hr|]. auto.
    + exists (race_insert u' (log_call op (FRace u') rest s)). split; [reflexivity|].
      split.
      * unfold race_insert. destruct (st_prefs _ !! u'); exact Hr.
      * intros u p H. apply race_insert_lookup. exact H.
Qed.

Lemma get_or_create_noraise u s :
  Forall (fun f => is_raise f = false) (st_sched s) ->
  exists p s', get_or_create u s = (Ok (Some p), s') /\ st_prefs s' !! u = Some p.
Proof.
  intros Hs. unfold get_or_create, findOnePrefs, bindM.
  destruct (db_op_noraise (OpFindPrefs u) (fun s => (Ok (st_prefs s !! u), s)) s Hs)
    as (s1 & E1 & Hs1 & Hk1). rewrite E1.
  destruct (st_prefs s1 !! u) as [p|] eqn:Ep.
  - exists p, s1. split; reflexivity || exact Ep.
  - unfold catchM, createDefault.
    destruct (db_op_noraise (OpCreatePrefs u) (fun s =>
       match st_prefs s !! u with
       | Some _ => (Err (EStore 11000), s)
       | None => (Ok defaultPrefs, set_prefs (<[u := defaultPrefs]> (st_prefs s)) s)
       end) s1 Hs1) as (s2 & E2 & Hs2 & Hk2).
    rewrite E2. destruct (st_prefs s2 !! u) as [p|] eqn:Ep2.
    + simpl. destruct (db_op_noraise (OpFindPrefs u) (fun s => (Ok (st_prefs s !! u), s)) s2 Hs2)
        as (s3 & E3 & _ & Hk3). rewrite E3. apply Hk3 in Ep2.
      exists p, s3. rewrite Ep2. split; reflexivity.
    + simpl. exists defaultPrefs, (set_prefs (<[u := defaultPrefs]> (st_prefs s2)) s2).
      split; [reflexivity|]. simpl. apply lookup_insert_eq.
Qed.

Lemma invalid_userId_false_str v : invalid_userId v = false -> exists u, v = JStr u.
Proof.
  destruct v; unfold invalid_userId; simpl; rewrite ?orb_true_r; simpl;
    intros H; try discriminate; eauto.
Qed.

Lemma shouldSendNotification_counterexample :
  fst (shouldSendNotification (JStr "u") CKeywordTaskAlerts ChEmail store_pref_down) = Ok true.
Proof. vm_compute. reflexivity. Qed.

(** Claim C3 (amended): for a non-blank string [userId] [u], when no call
    to the preference store raises, [shouldSendNotification u c ch] for
    [c] = keywordTaskAlerts or recommendedTaskAlerts returns
    [ch = push && flag], where [flag] is the push flag of [c] in the record
    stored for [u] after the call (the existing record, or the default one
    created for a first-time user); so email and sms are denied.  When the
    first call to the preference store raises, the gate fails open and
    returns true for every category and channel. *)
Theorem shouldSend_alert_categories (s : State) (u : string) (ch : Channel) :
  invalid_userId (JStr u) = false ->
  (Forall (fun f => is_raise f = false) (st_sched s) ->
   exists p s', st_prefs s' !! u = Some p
     /\ shouldSendNotification (JStr u) CKeywordTaskAlerts ch s
        = (Ok (channel_eqb ch ChPush && only_push (keywordTaskAlerts p))%bool, s')
     /\ shouldSendNotification (JStr u) CRecommendedTaskAlerts ch s
        = (Ok (channel_eqb ch ChPush && only_push (recommendedTaskAlerts p))%bool, s'))
  /\ (forall c code, fst (next_fault s) = FErr code ->
      fst (shouldSendNotification (JStr u) c ch s) = Ok true).
Proof.
  intros Hv. split.
  - intros Hs. destruct (get_or_create_noraise u s Hs) as (p & s' & E & Hp).
    exists p, s'. split; [exact Hp|].
    unfold shouldSendNotification, catchM, bindM. rewrite Hv, E. split; reflexivity.
  - intros c code Hf. unfold shouldSendNotification, catchM, bindM. rewrite Hv.
    unfold get_or_create, findOnePrefs, bindM, db_op.
    destruct (next_fault s) as [f rest]. simpl in Hf. subst f. reflexivity.
Qed.

Lemma shouldSend_alert_categories_witness :
  invalid_userId (JStr "u") = false
  /\ Forall (fun f => is_raise f = false) (st_sched store3)
  /\ exists p s', st_prefs s' !! "u" = Some p
     /\ shouldSendNotification (JStr "u") CKeywordTaskAlerts ChEmail store3
        = (Ok (channel_eqb ChEmail ChPush && only_push (keywordTaskAlerts p))%bool, s')
     /\ shouldSendNotification (JStr "u") CRecommendedTaskAlerts ChEmail store3
        = (Ok (channel_eqb ChEmail ChPush && only_push (recommendedTaskAlerts p))%bool, s').
Proof.
  assert (Hv : invalid_userId (JStr "u") = false) by reflexivity.
  assert (Hs : Forall (fun f => is_raise f = false) (st_sched store3)) by constructor.
  split; [exact Hv|]. split; [exact Hs|].
  exact (proj1 (shouldSend_alert_categories store3 "u" ChEmail Hv) Hs).
Defined.

(** *** C5: failures after the transport call *)

#[local] Instance raised_only_prefs_preorder : PreOrder raised_only_prefs.
Proof.
  split.
  - intros s. exists []. split; [reflexivity|constructor].
  - intros s1 s2 s3 (l1 & H1 & F1) (l2 & H2 & F2). exists (l2 ++ l1).
    split; [rewrite H2, H1, app_assoc; reflexivity|apply Forall_app; split; assumption].
Qed.

Lemma raised_only_of_pref s s' : pref_calls_only s s' -> raised_only_prefs s s'.
Proof.
  intros (l & H & F). exists l. split; [exact H|].
  eapply Forall_impl; [exact F|]. intros e He. left. exact He.
Qed.

Lemma raised_only_set_tokens l s : raised_only_prefs s (set_tokens l s).
Proof. exists []. split; [reflexivity|constructor]. Qed.

Lemma db_op_ok_raised {A} op (k : State -> Res A * State) s a s' :
  db_op op k s = (Ok a, s') -> exists s1, raised_only_prefs s s1 /\ k s1 = (Ok a, s').
Proof.
  unfold db_op. destruct (next_fault s) as [f rest]. destruct f as [|c|u]; intros H.
  - eexists. split; [|exact H]. exists [(op, FOk)]. split; [reflexivity|].
    constructor; [right; reflexivity|constructor].
  - discriminate.
  - eexists. split; [|exact H]. transitivity (log_call op (FRace u) rest s).
    + exists [(op, FRace u)]. split; [reflexivity|]. constructor; [right; reflexivity|constructor].
    + apply raised_only_of_pref, pref_calls_race.
Qed.

#[local] Instance log_ext_preorder : PreOrder log_ext.
Proof.
  split.
  - intros s. exists []. reflexivity.
  - intros s1 s2 s3 (l1 & H1) (l2 & H2). exists (l2 ++ l1). rewrite H2, H1, app_assoc. reflexivity.
Qed.

Lemma log_ext_log op f rest s : log_ext s (log_call op f rest s).
Proof. exists [(op, f)]. reflexivity. Qed.

Lemma log_ext_race u s : log_ext s (race_insert u s).
Proof. exists []. unfold race_insert. destruct (st_prefs s !! u); reflexivity. Qed.

Ltac log_db := apply keeps_db; [intros; apply log_ext_log|intros; apply log_ext_race|intros ?s; simpl].

Lemma wrapErr_state {A} ctx (m : M A) s : snd (wrapErr ctx m s) = snd (m s).
Proof. unfold wrapErr, catchM, throw. destruct (m s) as [[a|e] s1]; reflexivity. Qed.

Lemma bind_ok_eq {A B} (m : M A) (k : A -> M B) s a s1 :
  m s = (Ok a, s1) -> bindM m k s = k a s1.
Proof. unfold bindM. intros ->. reflexivity. Qed.

Lemma bind_log_ext {A B} (m : M A) (k : A -> M B) s :
  (forall a, keeps log_ext (k a)) -> log_ext (snd (m s)) (snd (bindM m k s)).
Proof. intros Hk. unfold bindM. destruct (m s) as [[a|e] s1]; [apply Hk|reflexivity]. Qed.

Lemma getUserFCMTokens_log u s :
  exists f, st_log (snd (getUserFCMTokens u s)) = (OpFindTokens u, f) :: st_log s.
Proof.
  unfold getUserFCMTokens, catchM, db_op, throw. destruct (next_fault s) as [f rest].
  exists f. destruct f as [|c|w]; simpl; [reflexivity|reflexivity|].
  unfold race_insert. destruct (_ !! w); reflexivity.
Qed.

Lemma shouldSend_gate_raises u c ch s code rest :
  invalid_userId (JStr u) = false -> next_fault s = (FErr code, rest) ->
  shouldSendNotification (JStr u) c ch s = (Ok true, log_call (OpFindPrefs u) (FErr code) rest s).
Proof.
  intros Hv Hf. unfold shouldSendNotification, catchM, bindM. rewrite Hv.
  unfold get_or_create, findOnePrefs, bindM, db_op. cbv beta. rewrite Hf. reflexivity.
Qed.

(** After a gate that allowed the send, the next call is the token lookup. *)
Lemma sendPush_after_gate u n s s1 res s' :
  shouldSendNotification (JStr u) (notif_category n) ChPush s = (Ok true, s1) ->
  sendPushNotification (JStr u) n s = (res, s') ->
  exists l f, st_log s' = l ++ (OpFindTokens u, f) :: st_log s1.
Proof.
  intros G H.
  assert (E : s' = snd (sendPushNotification (JStr u) n s)) by (rewrite H; reflexivity).
  unfold sendPushNotification in E. rewrite wrapErr_state in E.
  rewrite (bind_ok_eq _ _ _ _ _ G) in E. cbv beta iota delta [negb] in E.
  destruct (getUserFCMTokens_log u s1) as (f & Hl).
  assert (L : log_ext (snd (getUserFCMTokens u s1)) s').
  { rewrite E. apply bind_log_ext. intros tks.
    unfold sendEachForMulticast, updateManyLastActive, deleteManyTokens.
    repeat (keeps_step || log_db); try reflexivity; try (exists []; reflexivity). }
  destruct L as (l & Hl'). exists l, f. rewrite Hl', Hl. reflexivity.
Qed.

Lemma sendPushNotification_counterexample :
  st_log (snd (sendPushNotification (JStr "u") plain_notification store_cleanup_fails))
    = [(OpUpdateMany ["t1"], FErr 5); (OpMulticast ["t1"], FOk);
       (OpFindTokens "u", FOk); (OpFindPrefs "u", FOk)]
  /\ fst (sendPushNotification (JStr "u") plain_notification store_cleanup_fails)
     = Err (EWrap "Failed to send push notification" (EStore 5)).
Proof. split; vm_compute; reflexivity. Qed.

(** Claim C5 (amended): a run of [sendPushNotification] that returns a
    result logged no raising call other than calls to the preference store
    (whose errors the gate absorbs); a run that fails fails with the wrapped
    dispatch error "Failed to send push notification".  So a raise in the
    last-active bulk update or the invalid-token bulk delete, after the
    transport has returned its outcomes, makes the whole call fail and the
    counts computed from those outcomes are not returned; the same holds for
    a raise while reading the tokens or in the transport call.  When the
    preference lookup raises, the gate returns true, and whenever the gate
    returns true the send goes on: the next call is the lookup of the
    user's tokens. *)
Theorem sendPush_raise_propagates (v : jsval) (n : Notification) (s : State)
    (res : Res PushResult) (s' : State) :
  sendPushNotification v n s = (res, s') ->
  match res with
  | Ok _ => raised_only_prefs s s'
  | Err e => exists inner, e = EWrap "Failed to send push notification" inner
  end
  /\ (forall u, v = JStr u ->
      (forall code, invalid_userId v = false -> fst (next_fault s) = FErr code ->
       fst (shouldSendNotification v (notif_category n) ChPush s) = Ok true)
      /\ (forall s1, shouldSendNotification v (notif_category n) ChPush s = (Ok true, s1) ->
          exists l f, st_log s' = l ++ (OpFindTokens u, f) :: st_log s1)).
Proof.
  intros H. split.
  2:{ intros u ->. split.
      - intros code Hv Hf. destruct (next_fault s) as [f0 rest] eqn:En. simpl in Hf. subst f0.
        rewrite (shouldSend_gate_raises u (notif_category n) ChPush s code rest Hv En). reflexivity.
      - intros s1 G. exact (sendPush_after_gate u n s s1 res s' G H). }
  destruct res as [r|e].
  - unfold sendPushNotification, wrapErr in H. apply catch_throw_ok in H.
    apply bind_ok in H as (ok & s1 & Hs & H).
    assert (R1 : raised_only_prefs s s1).
    { pose proof (pref_calls_shouldSend v (notif_category n) ChPush s) as P.
      rewrite Hs in P. apply raised_only_of_pref. exact P. }
    destruct (negb ok); [injection H as _ <-; exact R1|].
    destruct v as [| | | |u| |]; try (injection H as _ <-; exact R1).
    apply bind_ok in H as (tks & s2 & Hget & H).
    unfold getUserFCMTokens in Hget. apply catch_throw_ok, db_op_ok_raised in Hget as (s2' & R2 & Hk).
    injection Hk as <- <-.
    destruct (user_tokens u (st_tokens s2')) as [|t0 ts0];
      [injection H as _ <-; etransitivity; eassumption|].
    apply bind_ok in H as (rs & s3 & Hmc & H).
    unfold sendEachForMulticast in Hmc. apply db_op_ok_raised in Hmc as (s3' & R3 & Hk).
    injection Hk as <- <-.
    apply bind_ok in H as (x1 & s4 & Hup & H).
    assert (R4 : raised_only_prefs s3' s4).
    { match type of Hup with ((if ?g then _ else _) _ = _) => destruct g end.
      - unfold updateManyLastActive in Hup. apply db_op_ok_raised in Hup as (s4' & R4 & Hk).
        injection Hk as _ <-. etransitivity; [exact R4|apply raised_only_set_tokens].
      - injection Hup as _ <-. reflexivity. }
    apply bind_ok in H as (x2 & s5 & Hdel & H).
    assert (R5 : raised_only_prefs s4 s5).
    { match type of Hdel with ((if ?g then _ else _) _ = _) => destruct g end.
      - unfold deleteManyTokens in Hdel. apply db_op_ok_raised in Hdel as (s5' & R5 & Hk).
        injection Hk as _ <-. etransitivity; [exact R5|apply raised_only_set_tokens].
      - injection Hdel as _ <-. reflexivity. }
    injection H as _ <-.
    etransitivity; [exact R1|]. etransitivity; [exact R2|].
    etransitivity; [exact R3|]. etransitivity; [exact R4|exact R5].
  - unfold sendPushNotification, wrapErr, catchM, throw in H.
    match type of H with (match ?m with _ => _ end = _) => destruct m as [[a|e0] s1] end;
      [discriminate|inversion H; eauto].
Qed.

Lemma sendPush_raise_propagates_witness :
  sendPushNotification (JStr "u") plain_notification store_cleanup_fails
    = (Err (EWrap "Failed to send push notification" (EStore 5)),
       snd (sendPushNotification (JStr "u") plain_notification store_cleanup_fails))
  /\ (exists inner, EWrap "Failed to send push notification" (EStore 5)
                    = EWrap "Failed to send push notification" inner)
  /\ fst (shouldSendNotification (JStr "u") (notif_category plain_notification) ChPush store_pref_down)
     = Ok true
  /\ exists l f, st_log (snd (sendPushNotification (JStr "u") plain_notification store_pref_down))
                 = l ++ (OpFindTokens "u", f)
                        :: st_log (snd (shouldSendNotification (JStr "u")
                                          (notif_category plain_notification) ChPush store_pref_down)).
Proof.
  assert (H : sendPushNotification (JStr "u") plain_notification store_cleanup_fails
    = (Err (EWrap "Failed to send push notification" (EStore 5)),
       snd (sendPushNotification (JStr "u") plain_notification store_cleanup_fails)))
    by (vm_compute; reflexivity).
  split; [exact H|]. split.
  { exact (proj1 (sendPush_raise_propagates (JStr "u") plain_notification store_cleanup_fails _ _ H)). }
  pose proof (proj2 (sendPush_raise_propagates (JStr "u") plain_notification store_pref_down _ _
                       (surjective_pairing _)) "u" eq_refl) as [G1 G2].
  assert (Hg : fst (shouldSendNotification (JStr "u") (notif_category plain_notification) ChPush
                      store_pref_down) = Ok true) by exact (G1 1 eq_refl eq_refl).
  split; [exact Hg|]. apply G2.
  rewrite (surjective_pairing (shouldSendNotification _ _ _ _)) at 1. rewrite Hg. reflexivity.
Defined.

(** *** C6: validation of a single-send request *)

Lemma sendNotification_counterexample :
  target_users body_no_recipients = []
  /\ spec_targets body_no_recipients = [JStr "u"]
  /\ sendNotification body_no_recipients store3 = (Ok (HErr EBadRequest), store3).
Proof. repeat split; vm_compute; reflexivity. Qed.

(** Claim C6 (amended): the target list is [recipients] whenever it is an
    array, even an empty one, and [[userId]] otherwise, so it is empty
    exactly when [recipients] is the empty array; the type tag is [type]
    when truthy and [eventKey] otherwise; and a request whose target list
    is empty or whose type tag, title or body is missing is answered with a
    validation error and leaves the store (records, calls, faults) exactly
    as it was: nothing is dispatched. *)
Theorem sendNotification_rejects (b : SendBody) (s : State) :
  send_invalid b = true ->
  sendNotification b s = (Ok (HErr EBadRequest), s)
  /\ (target_users b = [] <-> b_recipients b = JArr [])
  /\ truthy (notification_type b) = (truthy (b_type b) || truthy (b_eventKey b))%bool.
Proof.
  intros H. split; [|split].
  - unfold sendNotification, catchM. rewrite H. reflexivity.
  - unfold target_users. destruct (b_recipients b); split; intros E;
      try discriminate; try (injection E as E); subst; reflexivity.
  - unfold notification_type. destruct (truthy (b_type b)) eqn:E; simpl; [exact E|reflexivity].
Qed.

Lemma sendNotification_rejects_witness :
  send_invalid body_no_recipients = true
  /\ sendNotification body_no_recipients store3 = (Ok (HErr EBadRequest), store3)
  /\ (target_users body_no_recipients = [] <-> b_recipients body_no_recipients = JArr [])
  /\ truthy (notification_type body_no_recipients)
     = (truthy (b_type body_no_recipients) || truthy (b_eventKey body_no_recipients))%bool.
Proof.
  assert (H : send_invalid body_no_recipients = true) by reflexivity.
  split; [exact H|]. exact (sendNotification_rejects body_no_recipients store3 H).
Defined.

(** *** C9: one record per device *)

Lemma filter_none {A} (f : A -> bool) (l : list A) :
  (forall x, In x l -> f x = false) -> List.filter f l = [].
Proof.
  induction l as [|a l IH]; simpl; intros H; [reflexivity|].
  rewrite H by (left; reflexivity). apply IH. intros x Hx. apply H. right. exact Hx.
Qed.

Lemma registerToken_counterexample :
  fst (registerToken "u" "t1" Android (Some "d") (empty_store 5 all_ok))
    = Ok (mkTokenRec 0 "u" "t1" Android (Some "d") 5)
  /\ fst (registerToken "v" "t2" Ios (Some "e") reg_1)
    = Ok (mkTokenRec 1 "v" "t2" Ios (Some "e") 5)
  /\ fst (registerToken "u" "t2" Android (Some "d") reg_2)
    = Ok (mkTokenRec 1 "u" "t2" Android (Some "d") 5)
  /\ List.filter (same_device "u" "d") (st_tokens reg_3)
    = [mkTokenRec 0 "u" "t1" Android (Some "d") 5; mkTokenRec 1 "u" "t2" Android (Some "d") 5].
Proof. repeat split; vm_compute; reflexivity. Qed.

(** Claim C9 (amended): let [registerToken u t pl d] succeed for a
    non-empty device id [d].  If no record carries the token string [t] yet,
    exactly one record for the pair [(u, d)] remains, the new one, carrying
    [t]: the pre-save hook removed every older record of that device.  If a
    record [r0] already carries [t] (for any user or device), that record
    is updated in place: it keeps its [_id] and token, takes [u], [pl], [d]
    and the current time, and every other record stays as it was, older
    records of the pair included (the hook does not run).  The stored [_id]s
    are assumed to lie below the next fresh one. *)
Theorem registerToken_single_device_record (u t d : string) (pl : Platform) (s : State)
    (r : TokenRec) (s' : State) :
  d <> "" ->
  ids_below s ->
  registerToken u t pl (Some d) s = (Ok r, s') ->
  match List.find (fun x => String.eqb (tr_token x) t) (st_tokens s) with
  | None => List.filter (same_device u d) (st_tokens s') = [r] /\ tr_token r = t
  | Some r0 =>
      r = mkTokenRec (tr_id r0) u t pl (Some d) (st_now s)
      /\ st_tokens s' = map (fun x => if Nat.eqb (tr_id x) (tr_id r0) then r else x) (st_tokens s)
  end.
Proof.
  intros Hd Hids H.
  unfold registerToken, wrapErr in H. apply catch_throw_ok in H.
  apply bind_ok in H as (found & s1 & Hf & H).
  unfold findOneToken in Hf. apply db_op_ok in Hf as (s1' & F1 & Hk).
  injection Hk as <- <-. destruct F1 as (Ht1 & _ & Hnow1 & Hn1).
  rewrite Ht1 in H.
  destruct (List.find (fun x => String.eqb (tr_token x) t) (st_tokens s)) as [r0|] eqn:Hnf.
  { apply find_some in Hnf as [_ Et]. apply String.eqb_eq in Et.
    unfold bindM, current_time, saveExistingToken in H. cbn [tr_userId tr_token tr_id] in H.
    destruct (String.eqb u "") eqn:Eu; [discriminate|].
    apply db_op_ok in H as (s3 & (Ht3 & _) & Hk). injection Hk as <- <-. simpl.
    rewrite Ht3, Ht1, Hnow1, Et. split; reflexivity. }
  unfold createToken in H.
  destruct (String.eqb u "" || String.eqb t "")%bool; [discriminate|].
  apply bind_ok in H as (id & s2 & Hid & H). unfold new_id in Hid. injection Hid as <- <-.
  apply bind_ok in H as (now & s3 & Hnow & H). unfold current_time in Hnow. injection Hnow as <- <-.
  apply bind_ok in H as (x & s4 & Hdel & H).
  assert (Ed : String.eqb d "" = false) by (apply String.eqb_neq; exact Hd).
  cbv beta iota in Hdel. rewrite Ed in Hdel.
  unfold delete_same_device in Hdel. apply db_op_ok in Hdel as (s4' & F4 & Hk).
  injection Hk as _ <-. destruct F4 as (Ht4 & _).
  unfold insertToken in H. apply db_op_ok in H as (s5 & F5 & Hk).
  destruct F5 as (Ht5 & _). simpl in Ht5, Hk.
  destruct (existsb _ _); [discriminate|]. injection Hk as <- <-.
  split; [|reflexivity]. simpl. rewrite Ht5, Ht4. simpl. rewrite Ht1, Hn1.
  rewrite List.filter_app. simpl. unfold same_device at 2. simpl.
  rewrite String.eqb_refl. rewrite bool_decide_eq_true_2 by reflexivity. simpl.
  rewrite filter_none; [reflexivity|].
  intros y Hy. apply List.filter_In in Hy as [HyL HP].
  unfold same_device. destruct (String.eqb (tr_userId y) u && bool_decide (tr_deviceId y = Some d))%bool eqn:E;
    [|reflexivity].
  exfalso. simpl in HP. apply negb_true_iff, negb_false_iff, Nat.eqb_eq in HP.
  unfold ids_below in Hids. rewrite Forall_forall in Hids.
  apply list_elem_of_In in HyL. apply Hids in HyL. lia.
Qed.

(** On [reg_1] the pair ("u", "d") has a record with token "t1"; registering
    "t2" for it leaves the new record only.  On [reg_2] the token "t2" is
    stored for ("v", "e"); registering it for ("u", "d") updates that record
    in place. *)
Lemma registerToken_single_device_record_witness :
  List.filter (same_device "u" "d") (st_tokens reg_1) = [mkTokenRec 0 "u" "t1" Android (Some "d") 5]
  /\ List.filter (same_device "u" "d") (st_tokens (snd (registerToken "u" "t2" Android (Some "d") reg_1)))
     = [mkTokenRec 1 "u" "t2" Android (Some "d") 5]
  /\ st_tokens reg_3
     = map (fun x => if Nat.eqb (tr_id x) 1 then mkTokenRec 1 "u" "t2" Android (Some "d") 5 else x)
           (st_tokens reg_2).
Proof.
  assert (E1 : registerToken "u" "t2" Android (Some "d") reg_1
               = (Ok (mkTokenRec 1 "u" "t2" Android (Some "d") 5),
                  snd (registerToken "u" "t2" Android (Some "d") reg_1))) by (vm_compute; reflexivity).
  assert (E2 : registerToken "u" "t2" Android (Some "d") reg_2
               = (Ok (mkTokenRec 1 "u" "t2" Android (Some "d") 5), reg_3)) by (vm_compute; reflexivity).
  assert (I1 : ids_below reg_1) by (vm_compute; repeat constructor).
  assert (I2 : ids_below reg_2) by (vm_compute; repeat constructor).
  assert (D : "d" <> "") by discriminate.
  pose proof (registerToken_single_device_record "u" "t2" "d" Android reg_1 _ _ D I1 E1) as W1.
  pose proof (registerToken_single_device_record "u" "t2" "d" Android reg_2 _ _ D I2 E2) as W2.
  assert (F1 : List.find (fun x => String.eqb (tr_token x) "t2") (st_tokens reg_1) = None)
    by (vm_compute; reflexivity).
  assert (F2 : List.find (fun x => String.eqb (tr_token x) "t2") (st_tokens reg_2)
               = Some (mkTokenRec 1 "v" "t2" Ios (Some "e") 5)) by (vm_compute; reflexivity).
  rewrite F1 in W1. rewrite F2 in W2.
  split; [vm_compute; reflexivity|split; [exact (proj1 W1)|exact (proj2 W2)]].
Defined.

(** ** Further properties of the service *)

(** *** List facts *)

Lemma nodup_map_filter {A B} (g : A -> B) (p : A -> bool) (l : list A) :
  NoDup (map g l) -> NoDup (map g (List.filter p l)).
Proof.
  induction l as [|a l IH]; simpl; intros H; [constructor|].
  apply NoDup_cons in H as [Ha Hl]. destruct (p a); simpl; [|apply IH, Hl].
  apply NoDup_cons. split; [|apply IH, Hl].
  intros Hin. apply Ha. apply list_elem_of_In in Hin. apply list_elem_of_In.
  apply in_map_iff in Hin as (x & Hx & Hin). apply filter_In in Hin as [Hin _].
  apply in_map_iff. eauto.
Qed.

Lemma forall_filter {A} (P : A -> Prop) (p : A -> bool) (l : list A) :
  Forall P l -> Forall P (List.filter p l).
Proof. induction 1; simpl; [constructor|destruct (p x); auto]. Qed.

Lemma nodup_map_inj {A B} (g : A -> B) (l : list A) a b :
  NoDup (map g l) -> In a l -> In b l -> g a = g b -> a = b.
Proof.
  induction l as [|x l IH]; simpl; [tauto|]. intros Hnd Ha Hb He.
  apply NoDup_cons in Hnd as [Hnin Hnd].
  destruct Ha as [<-|Ha], Hb as [<-|Hb]; try reflexivity.
  - exfalso. apply Hnin. rewrite He. apply list_elem_of_In, in_map, Hb.
  - exfalso. apply Hnin. rewrite <- He. apply list_elem_of_In, in_map, Ha.
  - apply IH; assumption.
Qed.

Lemma filter_all {A} (f : A -> bool) (l : list A) :
  (forall x, In x l -> f x = true) -> List.filter f l = l.
Proof.
  induction l as [|a l IH]; simpl; intros H; [reflexivity|].
  rewrite H by (left; reflexivity). f_equal. apply IH. intros x Hx. apply H. right. exact Hx.
Qed.

Lemma delete_first_unique t l :
  NoDup (map tr_token l) ->
  delete_first_token t l = List.filter (fun x => negb (String.eqb (tr_token x) t)) l.
Proof.
  induction l as [|x l IH]; simpl; intros H; [reflexivity|].
  apply NoDup_cons in H as [Hx Hl].
  destruct (String.eqb (tr_token x) t) eqn:E; simpl.
  - apply String.eqb_eq in E. subst t. symmetry. apply filter_all.
    intros y Hy. apply negb_true_iff, String.eqb_neq. intros Hyx. apply Hx.
    apply list_elem_of_In. rewrite <- Hyx. apply in_map, Hy.
  - f_equal. apply IH, Hl.
Qed.

(** *** The token-store invariant *)

#[local] Instance tinv_rel_preorder : PreOrder tinv_rel.
Proof. split; [intros s H; exact H|intros s1 s2 s3 H1 H2 H; exact (H2 (H1 H))]. Qed.

Lemma tinv_frame s s' : tok_frame s s' -> tinv_rel s s'.
Proof.
  intros (Ht & _ & _ & Hn). unfold tinv_rel, tok_inv, ids_below. rewrite Ht, Hn. exact id.
Qed.

Lemma keeps_tinv_of_frame {A} (m : M A) : keeps tok_frame m -> keeps tinv_rel m.
Proof. intros H s. apply tinv_frame, H. Qed.

Lemma tinv_map s (f : TokenRec -> TokenRec) :
  (forall x, In x (st_tokens s) -> tr_token (f x) = tr_token x /\ tr_id (f x) = tr_id x) ->
  tinv_rel s (set_tokens (map f (st_tokens s)) s).
Proof.
  intros Hf ((Hnd & Hne) & Hid & Hb). unfold tok_inv, tokens_wf, ids_below in *. simpl.
  rewrite !map_map.
  rewrite (map_ext_in (fun x => tr_token (f x)) tr_token) by (intros x Hx; apply Hf, Hx).
  rewrite (map_ext_in (fun x => tr_id (f x)) tr_id) by (intros x Hx; apply Hf, Hx).
  split; [split; [exact Hnd|]|split; [exact Hid|]].
  - apply Forall_map. apply List.Forall_forall. intros x Hx.
    rewrite (proj1 (Hf x Hx)). exact (proj1 (List.Forall_forall _ _) Hne x Hx).
  - apply Forall_map. apply List.Forall_forall. intros x Hx.
    rewrite (proj2 (Hf x Hx)). exact (proj1 (List.Forall_forall _ _) Hb x Hx).
Qed.

Lemma tinv_filter s (p : TokenRec -> bool) :
  tinv_rel s (set_tokens (List.filter p (st_tokens s)) s).
Proof.
  intros ((Hnd & Hne) & Hid & Hb). unfold tok_inv, tokens_wf, ids_below in *. simpl.
  split; [split|split].
  - apply nodup_map_filter, Hnd.
  - apply forall_filter, Hne.
  - apply nodup_map_filter, Hid.
  - apply forall_filter, Hb.
Qed.

Lemma tinv_insert_fresh s r :
  tok_inv s -> tr_token r <> "" -> (tr_id r < st_nextId s)%nat ->
  Forall (fun x => (tr_id x < tr_id r)%nat) (st_tokens s) ->
  existsb (fun x => String.eqb (tr_token x) (tr_token r)) (st_tokens s) = false ->
  tok_inv (set_tokens (st_tokens s ++ [r]) s).
Proof.
  intros ((Hnd & Hne) & Hid & Hb) Ht Hr Hlt Hex. unfold tok_inv, tokens_wf, ids_below in *. simpl.
  rewrite !map_app. simpl. split; [split|split].
  - apply NoDup_app. split; [exact Hnd|]. split; [|apply NoDup_singleton].
    intros x Hx Hx'. apply list_elem_of_singleton in Hx'. subst x.
    apply list_elem_of_In, in_map_iff in Hx as (y & Hy & Hin).
    assert (E : existsb (fun x => String.eqb (tr_token x) (tr_token r)) (st_tokens s) = true).
    { apply existsb_exists. exists y. split; [exact Hin|]. apply String.eqb_eq, Hy. }
    congruence.
  - apply Forall_app. split; [exact Hne|]. constructor; [exact Ht|constructor].
  - apply NoDup_app. split; [exact Hid|]. split; [|apply NoDup_singleton].
    intros x Hx Hx'. apply list_elem_of_singleton in Hx'. subst x.
    apply list_elem_of_In, in_map_iff in Hx as (y & Hy & Hin).
    pose proof (proj1 (List.Forall_forall _ _) Hlt y Hin) as Hy'. cbv beta in Hy'. lia.
  - apply Forall_app. split; [exact Hb|]. constructor; [exact Hr|constructor].
Qed.

(** The store after a collaborator call: a frame copy, or the call's effect
    run on a frame copy. *)
Lemma db_op_bind_state {A B} (P : State -> Prop) op (k : State -> Res A * State) (K : A -> M B) s :
  (forall s1, tok_frame s s1 -> P s1) ->
  (forall s1, tok_frame s s1 -> P (snd (bindM k K s1))) ->
  P (snd (bindM (db_op op k) K s)).
Proof.
  intros H1 H2. unfold bindM at 1, db_op.
  destruct (next_fault s) as [f rest]. destruct f as [|c|u]; simpl.
  - apply (H2 (log_call op FOk rest s) (tok_frame_log _ _ _ _)).
  - apply H1, tok_frame_log.
  - apply (H2 (race_insert u (log_call op (FRace u) rest s))).
    etransitivity; [apply tok_frame_log|apply tok_frame_race].
Qed.

Lemma db_op_state {A} (P : State -> Prop) op (k : State -> Res A * State) s :
  (forall s1, tok_frame s s1 -> P s1) ->
  (forall s1, tok_frame s s1 -> P (snd (k s1))) ->
  P (snd (db_op op k s)).
Proof.
  intros H1 H2. unfold db_op.
  destruct (next_fault s) as [f rest]. destruct f as [|c|u]; simpl.
  - apply H2, tok_frame_log.
  - apply H1, tok_frame_log.
  - apply H2. etransitivity; [apply tok_frame_log|apply tok_frame_race].
Qed.

Lemma tok_inv_frame s s1 : tok_frame s s1 -> tok_inv s -> tok_inv s1.
Proof. intros F. apply tinv_frame, F. Qed.

Lemma tok_frame_getPreferences v : keeps tok_frame (getPreferences v).
Proof. unfold getPreferences. repeat (keeps_step || apply tok_frame_get_or_create). Qed.

Lemma tok_frame_updatePreferences v q : keeps tok_frame (updatePreferences v q).
Proof.
  unfold updatePreferences, savePrefs.
  repeat (keeps_step || apply tok_frame_get_or_create || tok_db); repeat split.
Qed.

Ltac tinv_db := apply keeps_db;
  [intros; apply tinv_frame, tok_frame_log|intros; apply tinv_frame, tok_frame_race|intros ?s; simpl].

Lemma tinv_sendPush v n : keeps tinv_rel (sendPushNotification v n).
Proof.
  unfold sendPushNotification, getUserFCMTokens, sendEachForMulticast,
    updateManyLastActive, deleteManyTokens.
  repeat (keeps_step || apply (keeps_tinv_of_frame _ (tok_frame_shouldSend _ _ _)) || tinv_db);
    try reflexivity.
  - apply tinv_map. intros x _. destruct (mem_str _ _); split; reflexivity.
  - apply tinv_filter.
Qed.

Lemma tinv_batch_loop ids n a b : keeps tinv_rel (batch_loop ids n a b).
Proof.
  revert a b. induction ids as [|u ids IH]; intros a b; simpl.
  - apply keeps_ret.
  - apply keeps_bind; [|intros; apply IH].
    apply keeps_catch; [|intros; apply keeps_ret].
    apply keeps_bind; [apply tinv_sendPush|intros; apply keeps_ret].
Qed.

Lemma tinv_send_loop ids n a b : keeps tinv_rel (send_loop ids n a b).
Proof.
  revert a b. induction ids as [|u ids IH]; intros a b; simpl.
  - apply keeps_ret.
  - apply keeps_bind; [|intros; apply IH].
    apply keeps_catch; [|intros; apply keeps_ret].
    apply keeps_bind; [apply tinv_sendPush|intros; apply keeps_ret].
Qed.

Lemma tinv_sendToMultipleUsers ids n : keeps tinv_rel (sendToMultipleUsers ids n).
Proof.
  unfold sendToMultipleUsers. apply keeps_bind; [apply tinv_batch_loop|intros; apply keeps_ret].
Qed.

Lemma tinv_replace s r r' :
  In r (st_tokens s) -> tr_id r' = tr_id r -> tr_token r' = tr_token r ->
  tinv_rel s (set_tokens (map (fun x => if Nat.eqb (tr_id x) (tr_id r') then r' else x) (st_tokens s)) s).
Proof.
  intros Hr Hi Ht Hs. apply tinv_map; [|exact Hs].
  intros x Hx. destruct (Nat.eqb (tr_id x) (tr_id r')) eqn:E; [|split; reflexivity].
  apply Nat.eqb_eq in E. rewrite Hi in E.
  destruct Hs as (_ & Hid & _).
  assert (x = r) by exact (nodup_map_inj tr_id _ x r Hid Hx Hr E). subst x.
  split; assumption.
Qed.

(** The new-record branch of [registerToken]. *)
Lemma tinv_createToken u t pl d : keeps tinv_rel (createToken u t pl d).
Proof.
  intros s Hs. unfold createToken.
  destruct (String.eqb u "" || String.eqb t "")%bool eqn:Ev; [exact Hs|].
  apply orb_false_iff in Ev as [_ Ht]. apply String.eqb_neq in Ht.
  unfold bindM at 1, new_id. unfold bindM at 1, current_time.
  set (n := st_nextId s). set (s2 := set_nextId (S n) s).
  set (r := mkTokenRec n u t pl d (st_now s2)).
  assert (J2 : tok_inv s2 /\ Forall (fun x => (tr_id x < n)%nat) (st_tokens s2) /\ st_nextId s2 = S n).
  { destruct Hs as (Hw & Hid & Hb). split; [split; [exact Hw|split; [exact Hid|]]|split; [exact Hb|reflexivity]].
    unfold ids_below. simpl. eapply Forall_impl; [exact Hb|]. simpl. intros x Hx. lia. }
  clearbody s2. clear Hs.
  assert (Hins : forall s3, tok_inv s3 -> Forall (fun x => (tr_id x < n)%nat) (st_tokens s3) ->
                 st_nextId s3 = S n -> tok_inv (snd (insertToken r s3))).
  { intros s3 H3 Hlt3 Hn3. unfold insertToken. apply db_op_state.
    - intros s4 F. exact (tok_inv_frame _ _ F H3).
    - intros s4 F. pose proof (tok_inv_frame _ _ F H3) as H4.
      destruct F as (Ht4 & _ & _ & Hn4). simpl.
      destruct (existsb _ _) eqn:Ex; simpl; [exact H4|].
      apply tinv_insert_fresh; [exact H4|exact Ht|simpl; lia|rewrite Ht4; exact Hlt3|exact Ex]. }
  destruct J2 as (H2 & Hlt2 & Hn2).
  destruct d as [dv|]; [destruct (String.eqb dv "")|]; simpl;
    try (apply Hins; assumption).
  unfold delete_same_device. apply db_op_bind_state.
  - intros s3 F. exact (tok_inv_frame _ _ F H2).
  - intros s3 F. unfold bindM. simpl. destruct F as (Ht3 & Hf3 & Hnow3 & Hn3).
    assert (F' : tok_frame s2 s3) by (repeat split; assumption).
    apply Hins.
    + apply tinv_filter. exact (tok_inv_frame _ _ F' H2).
    + simpl. apply forall_filter. rewrite Ht3. exact Hlt2.
    + simpl. rewrite Hn3. exact Hn2.
Qed.

Lemma tinv_registerToken u t pl d : keeps tinv_rel (registerToken u t pl d).
Proof.
  unfold registerToken. apply keeps_wrap.
  intros s Hs. unfold findOneToken. apply db_op_bind_state.
  - intros s1 F. exact (tok_inv_frame _ _ F Hs).
  - intros s1 F. pose proof (tok_inv_frame _ _ F Hs) as H1. clear Hs F.
    unfold bindM at 1. simpl.
    destruct (List.find _ _) as [r|] eqn:Ef; [|apply (tinv_createToken u t pl d s1 H1)].
    apply find_some in Ef as [Hr _].
    unfold bindM, current_time, saveExistingToken. cbn [tr_userId tr_token].
    destruct (String.eqb u ""); [exact H1|].
    apply db_op_state.
    + intros s2 F. exact (tok_inv_frame _ _ F H1).
    + intros s2 F. simpl. pose proof (tok_inv_frame _ _ F H1) as H2.
      destruct F as (Ht2 & _).
      exact (tinv_replace s2 r (mkTokenRec (tr_id r) u (tr_token r) pl d (st_now s1))
               ltac:(rewrite Ht2; exact Hr) eq_refl eq_refl H2).
Qed.

Lemma tinv_removeToken t : keeps tinv_rel (removeToken t).
Proof.
  intros s Hs. unfold removeToken, catchM.
  assert (Hd : tok_inv (snd (deleteOneToken t s))).
  { unfold deleteOneToken. apply db_op_state.
    - intros s1 F. exact (tok_inv_frame _ _ F Hs).
    - intros s1 F. pose proof (tok_inv_frame _ _ F Hs) as H1.
      destruct (existsb _ _); simpl; [|exact H1].
      rewrite delete_first_unique by (exact (proj1 (proj1 H1))). apply tinv_filter, H1. }
  unfold bindM. destruct (deleteOneToken t s) as [[k|e] s1]; simpl in Hd.
  - destruct (Nat.eqb k 0); simpl; exact Hd.
  - destruct (is_not_found e); exact Hd.
Qed.

Lemma tinv_sendNotification b : keeps tinv_rel (sendNotification b).
Proof. unfold sendNotification. repeat (keeps_step || apply tinv_send_loop). Qed.

Lemma tinv_sendBatchNotification b : keeps tinv_rel (sendBatchNotification b).
Proof. unfold sendBatchNotification. repeat (keeps_step || apply tinv_sendToMultipleUsers). Qed.

(** X1: in every store the service can reach, the token collection satisfies
    the unique index on [token] and the required validator, and the
    [_id]s are unique and below the next fresh one. *)
Theorem service_reachable_tok_inv s : ServiceReachable s -> tok_inv s.
Proof.
  induction 1 as [now fcm|s now fcm sched _ IH|s v c ch _ IH|s v _ IH|s v q _ IH
                 |s v n _ IH|s ids n _ IH|s u t pl d _ IH|s t _ IH|s b _ IH|s b _ IH].
  - split; [split; constructor|split; constructor].
  - exact IH.
  - exact (keeps_tinv_of_frame _ (tok_frame_shouldSend v c ch) s IH).
  - exact (keeps_tinv_of_frame _ (tok_frame_getPreferences v) s IH).
  - exact (keeps_tinv_of_frame _ (tok_frame_updatePreferences v q) s IH).
  - exact (tinv_sendPush v n s IH).
  - exact (tinv_sendToMultipleUsers ids n s IH).
  - exact (tinv_registerToken u t pl d s IH).
  - exact (tinv_removeToken t s IH).
  - exact (tinv_sendNotification b s IH).
  - exact (tinv_sendBatchNotification b s IH).
Qed.

Lemma service_reachable_tok_inv_witness :
  ServiceReachable (snd (removeToken "t1" (snd (registerToken "u" "t1" Android (Some "d") (empty_store 0 all_ok)))))
  /\ tok_inv (snd (removeToken "t1" (snd (registerToken "u" "t1" Android (Some "d") (empty_store 0 all_ok))))).
Proof.
  assert (H : ServiceReachable (snd (removeToken "t1"
                 (snd (registerToken "u" "t1" Android (Some "d") (empty_store 0 all_ok))))))
    by (apply SR_remove, SR_register, SR_init).
  split; [exact H|exact (service_reachable_tok_inv _ H)].
Defined.

(** *** Token removal *)

Lemma existsb_token_in t l :
  existsb (fun x => String.eqb (tr_token x) t) l = true <-> In t (map tr_token l).
Proof.
  rewrite existsb_exists, in_map_iff. split.
  - intros (x & Hx & E). apply String.eqb_eq in E. eauto.
  - intros (x & E & Hx). exists x. split; [exact Hx|]. apply String.eqb_eq, E.
Qed.

(** X2: with unique token strings (the unique index), a successful
    [removeToken t] means [t] was stored, and exactly the record holding
    it is removed. *)
Theorem removeToken_ok (t : string) (s s' : State) :
  NoDup (map tr_token (st_tokens s)) ->
  removeToken t s = (Ok tt, s') ->
  In t (map tr_token (st_tokens s))
  /\ st_tokens s' = List.filter (fun x => negb (String.eqb (tr_token x) t)) (st_tokens s).
Proof.
  intros Hnd H. unfold removeToken, catchM in H.
  destruct (bindM (deleteOneToken t) _ s) as [[a|e] s1] eqn:E.
  2:{ destruct (is_not_found e); discriminate. }
  injection H as -> ->.
  apply bind_ok in E as (n & s2 & Hd & Hk).
  destruct (Nat.eqb n 0) eqn:En; [discriminate|]. injection Hk as ->.
  unfold deleteOneToken in Hd. apply db_op_ok in Hd as (s3 & (Ht3 & _) & Hk).
  rewrite Ht3 in Hk. destruct (existsb _ (st_tokens s)) eqn:Ex.
  - injection Hk as _ <-. split; [apply existsb_token_in, Ex|].
    simpl. apply delete_first_unique, Hnd.
  - injection Hk as <- _. discriminate.
Qed.

Lemma removeToken_ok_witness :
  NoDup (map tr_token (st_tokens store3)) /\
  removeToken "t2" store3 = (Ok tt, snd (removeToken "t2" store3)) /\
  In "t2" (map tr_token (st_tokens store3))
  /\ st_tokens (snd (removeToken "t2" store3))
     = List.filter (fun x => negb (String.eqb (tr_token x) "t2")) (st_tokens store3).
Proof.
  assert (H1 : NoDup (map tr_token (st_tokens store3))) by (simpl; repeat constructor; set_solver).
  assert (H2 : removeToken "t2" store3 = (Ok tt, snd (removeToken "t2" store3)))
    by (vm_compute; reflexivity).
  split; [exact H1|split; [exact H2|]].
  exact (removeToken_ok "t2" store3 _ H1 H2).
Defined.

(** X3: removing a token that is not stored never succeeds: the error is
    "FCM token not found" (not wrapped again), or the wrapped error of a
    failed delete call; the token collection is left as it was. *)
Theorem removeToken_missing (t : string) (s : State) :
  ~ In t (map tr_token (st_tokens s)) ->
  st_tokens (snd (removeToken t s)) = st_tokens s
  /\ (fst (removeToken t s) = Err (ENotFound "FCM token not found")
      \/ exists c, fst (removeToken t s) = Err (EWrap "Failed to remove FCM token" (EStore c))).
Proof.
  intros Hn.
  assert (Ex : forall s1, st_tokens s1 = st_tokens s ->
               existsb (fun x => String.eqb (tr_token x) t) (st_tokens s1) = false).
  { intros s1 ->. destruct (existsb _ _) eqn:E; [|reflexivity].
    exfalso. apply Hn, existsb_token_in, E. }
  unfold removeToken, catchM, bindM, deleteOneToken, db_op.
  destruct (next_fault s) as [f rest]. destruct f as [|c|u]; simpl.
  - rewrite Ex by reflexivity. simpl. split; [reflexivity|left; reflexivity].
  - split; [reflexivity|right; exists c; reflexivity].
  - rewrite Ex by (unfold race_insert; destruct (st_prefs _ !! u); reflexivity).
    simpl. split; [unfold race_insert; destruct (st_prefs _ !! u); reflexivity|left; reflexivity].
Qed.

Lemma removeToken_missing_witness :
  ~ In "zz" (map tr_token (st_tokens store3)) /\
  st_tokens (snd (removeToken "zz" store3)) = st_tokens store3
  /\ (fst (removeToken "zz" store3) = Err (ENotFound "FCM token not found")
      \/ exists c, fst (removeToken "zz" store3) = Err (EWrap "Failed to remove FCM token" (EStore c))).
Proof.
  assert (H : ~ In "zz" (map tr_token (st_tokens store3))) by (vm_compute; intuition discriminate).
  split; [exact H|]. exact (removeToken_missing "zz" store3 H).
Defined.

(** *** The token read *)

Lemma insert_desc_hd r a l :
  HdRel by_last_active_desc a l -> by_last_active_desc a r ->
  HdRel by_last_active_desc a (insert_desc r l).
Proof.
  intros Hl Hr. destruct l as [|x l]; simpl; [constructor; exact Hr|].
  destruct (tr_lastActive x <? tr_lastActive r)%nat; constructor; [exact Hr|inversion Hl; assumption].
Qed.

Lemma insert_desc_sorted r l :
  Sorted by_last_active_desc l -> Sorted by_last_active_desc (insert_desc r l).
Proof.
  induction l as [|x l IH]; simpl; intros Hs; [repeat constructor|].
  destruct (tr_lastActive x <? tr_lastActive r)%nat eqn:E.
  - apply Nat.ltb_lt in E. constructor; [exact Hs|constructor; unfold by_last_active_desc; lia].
  - apply Nat.ltb_ge in E. inversion Hs as [|? ? Hs' Hhd]; subst.
    constructor; [apply IH, Hs'|]. apply insert_desc_hd; [exact Hhd|unfold by_last_active_desc; lia].
Qed.

Lemma sort_desc_sorted l : Sorted by_last_active_desc (sort_desc l).
Proof. induction l as [|x l IH]; simpl; [constructor|apply insert_desc_sorted, IH]. Qed.

Lemma insert_desc_perm r l : Permutation (insert_desc r l) (r :: l).
Proof.
  induction l as [|x l IH]; simpl; [reflexivity|].
  destruct (tr_lastActive x <? tr_lastActive r)%nat; [reflexivity|].
  rewrite IH. apply perm_swap.
Qed.

Lemma sort_desc_perm l : Permutation (sort_desc l) l.
Proof. induction l as [|x l IH]; simpl; [reflexivity|]. rewrite insert_desc_perm, IH. reflexivity. Qed.

(** X4: a successful [getUserFCMTokens u] returns exactly the records of
    [u] (each once), ordered by [lastActive], most recent first, and
    leaves the token collection alone. *)
Theorem getUserFCMTokens_ok (u : string) (s s' : State) (l : list TokenRec) :
  getUserFCMTokens u s = (Ok l, s') ->
  Sorted by_last_active_desc l
  /\ Permutation l (List.filter (fun r => String.eqb (tr_userId r) u) (st_tokens s))
  /\ st_tokens s' = st_tokens s.
Proof.
  intros H. unfold getUserFCMTokens in H. apply catch_throw_ok in H.
  apply db_op_ok in H as (s1 & (Ht1 & _) & Hk). injection Hk as <- <-.
  unfold user_tokens. rewrite Ht1.
  split; [apply sort_desc_sorted|split; [apply sort_desc_perm|reflexivity]].
Qed.

Lemma getUserFCMTokens_ok_witness :
  getUserFCMTokens "u" store_la
    = (Ok [mkTokenRec 2 "u" "t3" Web (Some "d") 5; mkTokenRec 0 "u" "t1" Android None 3],
       snd (getUserFCMTokens "u" store_la))
  /\ Sorted by_last_active_desc
       [mkTokenRec 2 "u" "t3" Web (Some "d") 5; mkTokenRec 0 "u" "t1" Android None 3].
Proof.
  assert (H : getUserFCMTokens "u" store_la
    = (Ok [mkTokenRec 2 "u" "t3" Web (Some "d") 5; mkTokenRec 0 "u" "t1" Android None 3],
       snd (getUserFCMTokens "u" store_la))) by (vm_compute; reflexivity).
  split; [exact H|]. exact (proj1 (getUserFCMTokens_ok "u" store_la _ _ H)).
Defined.

(** *** Preferences: what is stored is what is read back *)

Lemma db_op_noraise_prefs {A} op (k : State -> Res A * State) s :
  Forall (fun f => is_raise f = false) (st_sched s) ->
  exists s1, db_op op k s = k s1
    /\ Forall (fun f => is_raise f = false) (st_sched s1)
    /\ (forall u p, st_prefs s !! u = Some p -> st_prefs s1 !! u = Some p)
    /\ (forall u p, st_prefs s1 !! u = Some p -> st_prefs s !! u = Some p \/ p = defaultPrefs).
Proof.
  intros Hs. unfold db_op, next_fault. destruct (st_sched s) as [|f rest] eqn:Es.
  - exists (log_call op FOk [] s). split; [reflexivity|]. split; [constructor|]. auto.
  - apply Forall_cons in Hs as [Hf Hr]. destruct f as [|c|u']; [| discriminate |].
    + exists (log_call op FOk rest s). split; [reflexivity|]. split; [exact Hr|]. auto.
    + exists (race_insert u' (log_call op (FRace u') rest s)). split; [reflexivity|].
      unfold race_insert. simpl. destruct (st_prefs s !! u') as [p'|] eqn:E'; simpl.
      * split; [exact Hr|]. auto.
      * split; [exact Hr|]. split.
        -- intros u p H. rewrite lookup_insert_ne; [exact H|]. intros ->. congruence.
        -- intros u p H. destruct (decide (u = u')) as [->|Hne].
           ++ rewrite lookup_insert_eq in H. injection H as <-. right. reflexivity.
           ++ rewrite lookup_insert_ne in H by congruence. left. exact H.
Qed.

Lemma get_or_create_stored u s :
  Forall (fun f => is_raise f = false) (st_sched s) ->
  exists s', get_or_create u s = (Ok (Some (or_default (st_prefs s !! u))), s')
    /\ st_prefs s' !! u = Some (or_default (st_prefs s !! u))
    /\ Forall (fun f => is_raise f = false) (st_sched s').
Proof.
  intros Hs. unfold get_or_create, findOnePrefs, bindM.
  destruct (db_op_noraise_prefs (OpFindPrefs u) (fun s => (Ok (st_prefs s !! u), s)) s Hs)
    as (s1 & E1 & Hs1 & Hk1 & Hb1). rewrite E1.
  destruct (st_prefs s1 !! u) as [p|] eqn:Ep.
  - assert (Hp : p = or_default (st_prefs s !! u)).
    { destruct (st_prefs s !! u) as [p0|] eqn:E0; simpl.
      - apply Hk1 in E0. congruence.
      - destruct (Hb1 u p Ep) as [H|H]; [congruence|exact H]. }
    subst p. exists s1. split; [reflexivity|]. split; [exact Ep|exact Hs1].
  - assert (E0 : st_prefs s !! u = None).
    { destruct (st_prefs s !! u) as [p0|] eqn:E0; [apply Hk1 in E0; congruence|reflexivity]. }
    rewrite E0. simpl. unfold catchM, createDefault.
    destruct (db_op_noraise_prefs (OpCreatePrefs u) (fun s =>
       match st_prefs s !! u with
       | Some _ => (Err (EStore 11000), s)
       | None => (Ok defaultPrefs, set_prefs (<[u := defaultPrefs]> (st_prefs s)) s)
       end) s1 Hs1) as (s2 & E2 & Hs2 & Hk2 & Hb2).
    rewrite E2. destruct (st_prefs s2 !! u) as [p|] eqn:Ep2.
    + assert (p = defaultPrefs) as ->.
      { destruct (Hb2 u p Ep2) as [H|H]; [congruence|exact H]. }
      simpl. destruct (db_op_noraise_prefs (OpFindPrefs u) (fun s => (Ok (st_prefs s !! u), s)) s2 Hs2)
        as (s3 & E3 & Hs3 & Hk3 & _). rewrite E3. apply Hk3 in Ep2.
      exists s3. rewrite Ep2. split; [reflexivity|split; [reflexivity|exact Hs3]].
    + simpl. exists (set_prefs (<[u := defaultPrefs]> (st_prefs s2)) s2).
      split; [reflexivity|]. split; [apply lookup_insert_eq|exact Hs2].
Qed.

Lemma get_prefs_noraise (u : string) (s : State) :
  invalid_userId (JStr u) = false ->
  Forall (fun f => is_raise f = false) (st_sched s) ->
  exists s', getPreferences (JStr u) s = (Ok (or_default (st_prefs s !! u)), s')
    /\ st_prefs s' !! u = Some (or_default (st_prefs s !! u)).
Proof.
  intros Hv Hs. unfold getPreferences, wrapErr, catchM. rewrite Hv.
  destruct (get_or_create_stored u s Hs) as (s' & E & Hl & _).
  exists s'. unfold bindM. rewrite E. split; [reflexivity|exact Hl].
Qed.

(** X6: for a valid user id, when no collaborator call raises,
    [getPreferences] returns the stored record, or the defaults when there
    is none, and afterwards that record is stored for the user. *)
Theorem getPreferences_stored (u : string) (s : State) :
  invalid_userId (JStr u) = false ->
  Forall (fun f => is_raise f = false) (st_sched s) ->
  exists s', getPreferences (JStr u) s = (Ok (or_default (st_prefs s !! u)), s')
    /\ st_prefs s' !! u = Some (or_default (st_prefs s !! u)).
Proof. apply get_prefs_noraise. Qed.

Lemma getPreferences_stored_witness :
  invalid_userId (JStr "u") = false /\
  Forall (fun f => is_raise f = false) (st_sched (empty_store 0 all_ok)) /\
  exists s', getPreferences (JStr "u") (empty_store 0 all_ok)
               = (Ok (or_default (st_prefs (empty_store 0 all_ok) !! "u")), s')
    /\ st_prefs s' !! "u" = Some (or_default (st_prefs (empty_store 0 all_ok) !! "u")).
Proof.
  assert (H1 : invalid_userId (JStr "u") = false) by reflexivity.
  assert (H2 : Forall (fun f => is_raise f = false) (st_sched (empty_store 0 all_ok))) by constructor.
  split; [exact H1|split; [exact H2|]]. exact (getPreferences_stored "u" _ H1 H2).
Defined.

(** X7: for a valid user id, when no collaborator call raises,
    [updatePreferences] returns the patch applied to the stored record (or
    to the defaults), stores that result, and a following [getPreferences]
    returns it. *)
Theorem updatePreferences_roundtrip (u : string) (q : PrefsPatch) (s : State) :
  invalid_userId (JStr u) = false ->
  Forall (fun f => is_raise f = false) (st_sched s) ->
  exists s', updatePreferences (JStr u) q s = (Ok (apply_patch (or_default (st_prefs s !! u)) q), s')
    /\ st_prefs s' !! u = Some (apply_patch (or_default (st_prefs s !! u)) q)
    /\ fst (getPreferences (JStr u) s') = Ok (apply_patch (or_default (st_prefs s !! u)) q).
Proof.
  intros Hv Hs. set (r := apply_patch (or_default (st_prefs s !! u)) q).
  destruct (get_or_create_stored u s Hs) as (s1 & E1 & _ & Hs1).
  destruct (db_op_noraise (OpSavePrefs u) (fun s => (Ok tt, set_prefs (<[u := r]> (st_prefs s)) s)) s1 Hs1)
    as (s2 & E2 & Hs2 & _).
  exists (set_prefs (<[u := r]> (st_prefs s2)) s2).
  assert (Hl : st_prefs (set_prefs (<[u := r]> (st_prefs s2)) s2) !! u = Some r)
    by apply lookup_insert_eq.
  split; [|split; [exact Hl|]].
  - unfold updatePreferences, wrapErr, catchM. rewrite Hv. cbv beta iota.
    unfold bindM at 1. rewrite E1. unfold bindM, savePrefs. fold r. rewrite E2. reflexivity.
  - destruct (get_prefs_noraise u (set_prefs (<[u := r]> (st_prefs s2)) s2) Hv Hs2) as (s3 & E3 & _).
    rewrite E3, Hl. reflexivity.
Qed.

Lemma updatePreferences_roundtrip_witness :
  invalid_userId (JStr "u") = false /\
  Forall (fun f => is_raise f = false) (st_sched store3) /\
  exists s', updatePreferences (JStr "u") patch_trans_off store3
               = (Ok (apply_patch (or_default (st_prefs store3 !! "u")) patch_trans_off), s')
    /\ st_prefs s' !! "u" = Some (apply_patch (or_default (st_prefs store3 !! "u")) patch_trans_off)
    /\ fst (getPreferences (JStr "u") s')
       = Ok (apply_patch (or_default (st_prefs store3 !! "u")) patch_trans_off).
Proof.
  assert (H1 : invalid_userId (JStr "u") = false) by reflexivity.
  assert (H2 : Forall (fun f => is_raise f = false) (st_sched store3)) by constructor.
  split; [exact H1|split; [exact H2|]]. exact (updatePreferences_roundtrip "u" _ _ H1 H2).
Defined.

(** X8: the preference operations ([shouldSendNotification],
    [getPreferences], [updatePreferences]) never change the token
    collection, the id counter or the transport. *)
Theorem preference_ops_keep_tokens (v : jsval) (c : Category) (ch : Channel) (q : PrefsPatch) (s : State) :
  tok_frame s (snd (shouldSendNotification v c ch s))
  /\ tok_frame s (snd (getPreferences v s))
  /\ tok_frame s (snd (updatePreferences v q s)).
Proof.
  split; [apply tok_frame_shouldSend|split; [apply tok_frame_getPreferences|apply tok_frame_updatePreferences]].
Qed.

(** *** Sending never adds a token *)

#[local] Instance tok_sub_preorder : PreOrder tok_sub.
Proof. split; [intros s; apply incl_refl|intros s1 s2 s3 H1 H2; exact (incl_tran H2 H1)]. Qed.

Lemma tok_sub_frame s s' : tok_frame s s' -> tok_sub s s'.
Proof. intros (Ht & _). unfold tok_sub. rewrite Ht. apply incl_refl. Qed.

Ltac sub_db := apply keeps_db;
  [intros; apply tok_sub_frame, tok_frame_log|intros; apply tok_sub_frame, tok_frame_race|intros ?s; simpl].

Lemma tok_sub_sendPush v n : keeps tok_sub (sendPushNotification v n).
Proof.
  unfold sendPushNotification, getUserFCMTokens, sendEachForMulticast,
    updateManyLastActive, deleteManyTokens.
  repeat (keeps_step || (intros ?s; apply tok_sub_frame, tok_frame_shouldSend) || sub_db);
    try reflexivity.
  - unfold tok_sub. simpl. rewrite map_map.
    rewrite (map_ext _ tr_token) by (intros x; destruct (mem_str _ _); reflexivity). apply incl_refl.
  - unfold tok_sub. simpl. intros x Hx. apply in_map_iff in Hx as (y & <- & Hy).
    apply filter_In in Hy as [Hy _]. apply in_map, Hy.
Qed.

Lemma tok_sub_batch_loop ids n a b : keeps tok_sub (batch_loop ids n a b).
Proof.
  revert a b. induction ids as [|u ids IH]; intros a b; simpl; [apply keeps_ret|].
  apply keeps_bind; [|intros; apply IH].
  apply keeps_catch; [|intros; apply keeps_ret].
  apply keeps_bind; [apply tok_sub_sendPush|intros; apply keeps_ret].
Qed.

Lemma tok_sub_send_loop ids n a b : keeps tok_sub (send_loop ids n a b).
Proof.
  revert a b. induction ids as [|u ids IH]; intros a b; simpl; [apply keeps_ret|].
  apply keeps_bind; [|intros; apply IH].
  apply keeps_catch; [|intros; apply keeps_ret].
  apply keeps_bind; [apply tok_sub_sendPush|intros; apply keeps_ret].
Qed.

Lemma tok_sub_sendNotification b : keeps tok_sub (sendNotification b).
Proof. unfold sendNotification. repeat (keeps_step || apply tok_sub_send_loop). Qed.

Lemma tok_sub_sendBatchNotification b : keeps tok_sub (sendBatchNotification b).
Proof. unfold sendBatchNotification, sendToMultipleUsers. repeat (keeps_step || apply tok_sub_batch_loop). Qed.

(** X9: no sending operation adds a device token: after
    [sendPushNotification], [sendToMultipleUsers], [sendNotification] or
    [sendBatchNotification], every stored token string was stored before. *)
Theorem sending_adds_no_token (v : jsval) (n : Notification) (ids : list jsval)
    (b : SendBody) (bb : BatchBody) (s : State) :
  tok_sub s (snd (sendPushNotification v n s))
  /\ tok_sub s (snd (sendToMultipleUsers ids n s))
  /\ tok_sub s (snd (sendNotification b s))
  /\ tok_sub s (snd (sendBatchNotification bb s)).
Proof.
  split; [apply tok_sub_sendPush|].
  split; [unfold sendToMultipleUsers; apply keeps_bind; [apply tok_sub_batch_loop|intros; apply keeps_ret]|].
  split; [apply tok_sub_sendNotification|apply tok_sub_sendBatchNotification].
Qed.

(** *** The controllers and the services they call *)

Lemma send_loop_batch_loop ids n a b s : send_loop ids n a b s = batch_loop ids n a b s.
Proof.
  revert a b s. induction ids as [|u ids IH]; intros a b s; simpl; [reflexivity|].
  unfold bindM at 1 3. destruct (catchM _ _ s) as [[acc|e] s1]; [apply IH|reflexivity].
Qed.

(** X10: for a valid request, [sendNotification] answers with the [sent] and
    [failed] totals that [sendToMultipleUsers] computes for its target
    users, and reports success exactly when at least one notification was
    sent; the store ends as after [sendToMultipleUsers]. *)
Theorem sendNotification_valid (b : SendBody) (s s' : State) (r : BatchResult) :
  send_invalid b = false ->
  sendToMultipleUsers (target_users b)
    (mkNotification (notification_type b) (b_title b) (b_body b) (b_category b)) s = (Ok r, s') ->
  sendNotification b s = (Ok (HOk (0 <? br_sent r)%nat (br_sent r) (br_failed r)), s').
Proof.
  intros Hv H. unfold sendToMultipleUsers in H. apply bind_ok in H as (acc & s1 & Hl & Hk).
  injection Hk as <- <-.
  unfold sendNotification, catchM. rewrite Hv. unfold bindM. rewrite send_loop_batch_loop, Hl.
  reflexivity.
Qed.

Lemma sendNotification_valid_witness :
  send_invalid (mkSendBody (JStr "u") JUndef (JStr "task_update") JUndef (JStr "Title") (JStr "Body") None)
    = false /\
  sendToMultipleUsers [JStr "u"] plain_notification store3
    = (Ok (mkBatchResult 1 1 2), snd (sendToMultipleUsers [JStr "u"] plain_notification store3)) /\
  sendNotification (mkSendBody (JStr "u") JUndef (JStr "task_update") JUndef (JStr "Title") (JStr "Body") None) store3
    = (Ok (HOk true 1 2), snd (sendToMultipleUsers [JStr "u"] plain_notification store3)).
Proof.
  assert (H1 : send_invalid (mkSendBody (JStr "u") JUndef (JStr "task_update") JUndef
                                        (JStr "Title") (JStr "Body") None) = false) by reflexivity.
  assert (H2 : sendToMultipleUsers [JStr "u"] plain_notification store3
    = (Ok (mkBatchResult 1 1 2), snd (sendToMultipleUsers [JStr "u"] plain_notification store3)))
    by (vm_compute; reflexivity).
  split; [exact H1|split; [exact H2|]].
  exact (sendNotification_valid _ store3 _ (mkBatchResult 1 1 2) H1 H2).
Defined.

(** *** Registering a token that is already stored *)

(** X13: registering a token string that is already stored updates that
    record in place: the result keeps the stored record's [_id] and token,
    takes the new owner, platform and device, and the number of stored
    records does not change. *)
Theorem registerToken_existing (u t : string) (pl : Platform) (d : option string) (s s' : State) (r : TokenRec) :
  In t (map tr_token (st_tokens s)) ->
  registerToken u t pl d s = (Ok r, s') ->
  length (st_tokens s') = length (st_tokens s)
  /\ In r (st_tokens s')
  /\ (exists r0, In r0 (st_tokens s) /\ tr_token r0 = t /\ tr_id r = tr_id r0)
  /\ tr_token r = t /\ tr_userId r = u /\ tr_platform r = pl /\ tr_deviceId r = d.
Proof.
  intros Ht H. unfold registerToken, wrapErr in H. apply catch_throw_ok in H.
  apply bind_ok in H as (found & s1 & Hf & Hk).
  unfold findOneToken in Hf. apply db_op_ok in Hf as (s2 & (Ht2 & _) & Hf). injection Hf as Efound <-.
  rewrite Ht2 in Efound.
  destruct (List.find (fun x => String.eqb (tr_token x) t) (st_tokens s)) as [r0|] eqn:E.
  2:{ exfalso. apply in_map_iff in Ht as (x & Hx & Hin).
      pose proof (find_none _ _ E x Hin) as Hn. simpl in Hn. apply String.eqb_neq in Hn. exact (Hn Hx). }
  subst found. apply find_some in E as [Hr0 Et]. apply String.eqb_eq in Et.
  unfold bindM, current_time, saveExistingToken in Hk. cbn [tr_userId tr_token tr_id] in Hk.
  destruct (String.eqb u "") eqn:Eu; [discriminate|].
  apply db_op_ok in Hk as (s3 & (Ht3 & _) & Hk). injection Hk as <- <-. simpl.
  rewrite length_map, Ht3, Ht2. split; [reflexivity|].
  split; [|split; [exists r0; split; [exact Hr0|split; [exact Et|reflexivity]]|]].
  - apply in_map_iff. exists r0. rewrite Nat.eqb_refl. split; [reflexivity|exact Hr0].
  - simpl. repeat split. exact Et.
Qed.

Lemma registerToken_existing_witness :
  In "t2" (map tr_token (st_tokens store3)) /\
  registerToken "w" "t2" Web None store3
    = (Ok (mkTokenRec 1 "w" "t2" Web None 7), snd (registerToken "w" "t2" Web None store3)) /\
  length (st_tokens (snd (registerToken "w" "t2" Web None store3))) = length (st_tokens store3).
Proof.
  assert (H1 : In "t2" (map tr_token (st_tokens store3))) by (simpl; tauto).
  assert (H2 : registerToken "w" "t2" Web None store3
    = (Ok (mkTokenRec 1 "w" "t2" Web None 7), snd (registerToken "w" "t2" Web None store3)))
    by (vm_compute; reflexivity).
  split; [exact H1|split; [exact H2|]].
  exact (proj1 (registerToken_existing "w" "t2" Web None store3 _ _ H1 H2)).
Defined.

(** *** In-app notifications *)

Lemma iwrap_ok {A} ctx (m : IM A) s a s' : iwrap ctx m s = (Ok a, s') -> m s = (Ok a, s').
Proof. unfold iwrap. destruct (m s) as [[x|e] s1]; intros H; [exact H|discriminate]. Qed.

Lemma ibind_ok {A B} (m : IM A) (k : A -> IM B) s b s' :
  ibind m k s = (Ok b, s') -> exists a s1, m s = (Ok a, s1) /\ k a s1 = (Ok b, s').
Proof. unfold ibind. destruct (m s) as [[a|e] s1]; intros H; [eauto|discriminate]. Qed.

(** A call that succeeded ran on the same collection, counter and clock. *)
Lemma icall_ok {A} (k : IState -> Res A * IState) s a s' :
  icall k s = (Ok a, s') ->
  exists s1, is_notifs s1 = is_notifs s /\ is_nextId s1 = is_nextId s /\ is_now s1 = is_now s
             /\ k s1 = (Ok a, s').
Proof.
  unfold icall. destruct (is_sched s) as [|[c|] rest]; intros H.
  - exists s. auto.
  - discriminate.
  - eexists. split; [|split; [|split; [|exact H]]]; reflexivity.
Qed.

(** A call that failed left the collection alone, or failed in its body. *)
Lemma icall_err {A} (k : IState -> Res A * IState) s e s' :
  icall k s = (Err e, s') ->
  (exists c, e = EStore c /\ is_notifs s' = is_notifs s)
  \/ exists s1, is_notifs s1 = is_notifs s /\ is_nextId s1 = is_nextId s /\ is_now s1 = is_now s
                /\ k s1 = (Err e, s').
Proof.
  unfold icall. destruct (is_sched s) as [|[c|] rest]; intros H.
  - right. exists s. auto.
  - left. injection H as <- <-. exists c. split; reflexivity.
  - right. eexists. split; [|split; [|split; [|exact H]]]; reflexivity.
Qed.

Lemma unread_count_app u l r :
  length (List.filter (unread_of u) (l ++ [r]))
  = (length (List.filter (unread_of u) l) + if unread_of u r then 1 else 0)%nat.
Proof. rewrite List.filter_app, length_app. simpl. destruct (unread_of u r); reflexivity. Qed.

(** X14: a successful [createInAppNotification] appends one unread
    notification of the given user with a fresh [_id], a type from the
    enum ("info" when none is given) and [readAt] unset; the user's unread
    count grows by one. *)
Theorem createInAppNotification_ok (u title body : string) (ty cat : option string)
    (s s' : IState) (r : InAppNotif) :
  createInAppNotification u title body ty cat s = (Ok r, s') ->
  is_notifs s' = is_notifs s ++ [r]
  /\ ia_id r = is_nextId s /\ is_nextId s' = S (is_nextId s)
  /\ ia_userId r = u /\ ia_read r = false /\ ia_readAt r = None
  /\ ia_type r = match ty with Some t => if String.eqb t "" then "info" else t | None => "info" end
  /\ In (ia_type r) inapp_types
  /\ length (List.filter (unread_of u) (is_notifs s'))
     = S (length (List.filter (unread_of u) (is_notifs s))).
Proof.
  intros H. unfold createInAppNotification in H. apply iwrap_ok in H.
  unfold inAppCreate in H.
  set (ty' := match ty with Some t => if String.eqb t "" then "info" else t | None => "info" end) in *.
  destruct (String.eqb u "" || String.eqb title "" || String.eqb body ""
            || negb (existsb (String.eqb ty') inapp_types))%bool eqn:Ev; [discriminate|].
  apply orb_false_iff in Ev as [_ Ety]. apply negb_false_iff, existsb_exists in Ety as (t' & Ht' & Et).
  apply String.eqb_eq in Et. subst t'.
  apply icall_ok in H as (s1 & Hn & Hi & Hw & Hk). injection Hk as <- <-. simpl.
  rewrite Hn, Hi. split; [reflexivity|]. do 6 (split; [reflexivity|]). split; [exact Ht'|].
  rewrite unread_count_app. unfold unread_of at 2. simpl. rewrite String.eqb_refl. simpl. lia.
Qed.

Lemma createInAppNotification_ok_witness :
  createInAppNotification "v" "T" "b" None None istore
    = (Ok (mkInApp 3 "v" "T" "b" "info" None false None 9 9),
       snd (createInAppNotification "v" "T" "b" None None istore)) /\
  length (List.filter (unread_of "v") (is_notifs (snd (createInAppNotification "v" "T" "b" None None istore))))
  = S (length (List.filter (unread_of "v") (is_notifs istore))).
Proof.
  assert (H : createInAppNotification "v" "T" "b" None None istore
    = (Ok (mkInApp 3 "v" "T" "b" "info" None false None 9 9),
       snd (createInAppNotification "v" "T" "b" None None istore))) by (vm_compute; reflexivity).
  split; [exact H|].
  exact (proj2 (proj2 (proj2 (proj2 (proj2 (proj2 (proj2 (proj2
           (createInAppNotification_ok "v" "T" "b" None None istore _ _ H))))))))).
Defined.

Lemma mark_read_user now x : ia_userId (mark_read now x) = ia_userId x.
Proof. reflexivity. Qed.

Lemma filter_map_other {A} (q : A -> bool) (f : A -> A) (l : list A) :
  (forall x, In x l -> q x = false -> f x = x) ->
  (forall x, q (f x) = q x) ->
  List.filter (fun x => negb (q x)) (map f l) = List.filter (fun x => negb (q x)) l.
Proof.
  intros Hf Hq. induction l as [|x l IH]; simpl; [reflexivity|].
  rewrite Hq. destruct (q x) eqn:E; simpl.
  - apply IH. intros y Hy. apply Hf. right. exact Hy.
  - rewrite (Hf x (or_introl eq_refl) E). f_equal. apply IH. intros y Hy. apply Hf. right. exact Hy.
Qed.

(** X16: a successful [markAllInAppNotificationsAsRead u] reports the
    number of [u]'s unread notifications, leaves none of them unread,
    keeps the number of documents, and does not touch other users'
    notifications. *)
Theorem markAll_ok (u : string) (s s' : IState) (n : nat) :
  markAllInAppNotificationsAsRead u s = (Ok n, s') ->
  n = length (List.filter (unread_of u) (is_notifs s))
  /\ List.filter (unread_of u) (is_notifs s') = []
  /\ length (is_notifs s') = length (is_notifs s)
  /\ List.filter (fun x => negb (String.eqb (ia_userId x) u)) (is_notifs s')
     = List.filter (fun x => negb (String.eqb (ia_userId x) u)) (is_notifs s).
Proof.
  intros H. unfold markAllInAppNotificationsAsRead in H. apply iwrap_ok, icall_ok in H
    as (s1 & Hn & _ & Hw & Hk). injection Hk as <- <-. simpl. rewrite Hn, Hw.
  split; [reflexivity|]. split; [|split; [apply length_map|]].
  - apply filter_none. intros y Hy. apply in_map_iff in Hy as (x & <- & _).
    destruct (unread_of u x) eqn:E; [|exact E].
    unfold unread_of. simpl. apply andb_false_r.
  - apply (filter_map_other (fun x => String.eqb (ia_userId x) u)).
    + intros x _ E. unfold unread_of. rewrite E. reflexivity.
    + intros x. destruct (unread_of u x); reflexivity.
Qed.

Lemma markAll_ok_witness :
  markAllInAppNotificationsAsRead "u" istore
    = (Ok 1%nat, snd (markAllInAppNotificationsAsRead "u" istore)) /\
  List.filter (unread_of "u") (is_notifs (snd (markAllInAppNotificationsAsRead "u" istore))) = [].
Proof.
  assert (H : markAllInAppNotificationsAsRead "u" istore
    = (Ok 1%nat, snd (markAllInAppNotificationsAsRead "u" istore))) by (vm_compute; reflexivity).
  split; [exact H|]. exact (proj1 (proj2 (markAll_ok "u" istore _ _ H))).
Defined.

Lemma find_update_first {A} (p : A -> bool) (f : A -> A) (l : list A) :
  (forall x, p (f x) = p x) ->
  List.find p (update_first p f l) = option_map f (List.find p l).
Proof.
  intros Hp. induction l as [|x l IH]; simpl; [reflexivity|].
  destruct (p x) eqn:E; simpl; [rewrite Hp, E; reflexivity|rewrite E; exact IH].
Qed.

Lemma filter_update_first {A} (p : A -> bool) (f : A -> A) (l : list A) :
  (forall x, p (f x) = p x) ->
  List.filter (fun x => negb (p x)) (update_first p f l) = List.filter (fun x => negb (p x)) l.
Proof.
  intros Hp. induction l as [|x l IH]; simpl; [reflexivity|].
  destruct (p x) eqn:E; simpl; [rewrite Hp, E; reflexivity|rewrite E; simpl; f_equal; exact IH].
Qed.

Lemma find_none_existsb {A} (p : A -> bool) l : existsb p l = false -> List.find p l = None.
Proof.
  induction l as [|x l IH]; simpl; [reflexivity|].
  destruct (p x); simpl; [discriminate|exact IH].
Qed.

Lemma owned_mark_read id u now x : owned id u (mark_read now x) = owned id u x.
Proof. reflexivity. Qed.

(** X17: a successful [markInAppNotificationAsRead id u]: when no
    notification with that [_id] belongs to [u] it reports false and
    changes nothing; otherwise the matching notification is read from
    now on ([readAt] = now), the answer is true whenever it was unread,
    and every other notification is left as it was. *)
Theorem markAsRead_ok (id : nat) (u : string) (s s' : IState) (b : bool) :
  markInAppNotificationAsRead id u s = (Ok b, s') ->
  (existsb (owned id u) (is_notifs s) = false -> b = false /\ is_notifs s' = is_notifs s)
  /\ (forall x, List.find (owned id u) (is_notifs s) = Some x ->
        List.find (owned id u) (is_notifs s') = Some (mark_read (is_now s) x)
        /\ (ia_read x = false -> b = true)
        /\ List.filter (fun y => negb (owned id u y)) (is_notifs s')
           = List.filter (fun y => negb (owned id u y)) (is_notifs s)).
Proof.
  intros H. unfold markInAppNotificationAsRead in H. apply iwrap_ok, icall_ok in H
    as (s1 & Hn & _ & Hw & Hk). rewrite Hn, Hw in Hk.
  destruct (List.find (owned id u) (is_notifs s)) as [x0|] eqn:Ef.
  - injection Hk as <- <-. simpl. split.
    + intros Hex. rewrite find_none_existsb in Ef by exact Hex. discriminate.
    + intros x Ex. injection Ex as <-. split; [|split].
      * rewrite find_update_first, Ef by apply owned_mark_read. reflexivity.
      * intros Hr. unfold mark_changes. rewrite Hr. reflexivity.
      * apply filter_update_first, owned_mark_read.
  - injection Hk as <- <-. split; [intros _; split; [reflexivity|exact Hn]|].
    intros x Ex. discriminate.
Qed.

Lemma markAsRead_ok_witness :
  markInAppNotificationAsRead 0 "u" istore
    = (Ok true, snd (markInAppNotificationAsRead 0 "u" istore)) /\
  List.find (owned 0 "u") (is_notifs (snd (markInAppNotificationAsRead 0 "u" istore)))
    = Some (mark_read 9 (mkInApp 0 "u" "A" "a" "info" None false None 1 1)).
Proof.
  assert (H : markInAppNotificationAsRead 0 "u" istore
    = (Ok true, snd (markInAppNotificationAsRead 0 "u" istore))) by (vm_compute; reflexivity).
  split; [exact H|].
  exact (proj1 (proj2 (markAsRead_ok 0 "u" istore _ _ H) _ eq_refl)).
Defined.

Lemma filter_remove_first {A} (p : A -> bool) (l : list A) :
  List.filter (fun x => negb (p x)) (remove_first p l) = List.filter (fun x => negb (p x)) l.
Proof.
  induction l as [|x l IH]; simpl; [reflexivity|].
  destruct (p x) eqn:E; simpl; [reflexivity|rewrite E; simpl; f_equal; exact IH].
Qed.

Lemma count_remove_first {A} (p : A -> bool) (l : list A) :
  existsb p l = true ->
  S (length (List.filter p (remove_first p l))) = length (List.filter p l).
Proof.
  induction l as [|x l IH]; simpl; [discriminate|].
  destruct (p x) eqn:E; simpl; intros H; [reflexivity|rewrite E; exact (IH H)].
Qed.

(** X18: a successful [deleteInAppNotification id u] answers whether [u]
    owned a notification with that [_id]; if so exactly one such document
    is removed, otherwise nothing is; every other notification stays. *)
Theorem deleteInApp_ok (id : nat) (u : string) (s s' : IState) (b : bool) :
  deleteInAppNotification id u s = (Ok b, s') ->
  b = existsb (owned id u) (is_notifs s)
  /\ (length (List.filter (owned id u) (is_notifs s')) + (if b then 1 else 0))%nat
     = length (List.filter (owned id u) (is_notifs s))
  /\ List.filter (fun y => negb (owned id u y)) (is_notifs s')
     = List.filter (fun y => negb (owned id u y)) (is_notifs s).
Proof.
  intros H. unfold deleteInAppNotification in H. apply iwrap_ok, icall_ok in H
    as (s1 & Hn & _ & _ & Hk). rewrite Hn in Hk.
  destruct (existsb (owned id u) (is_notifs s)) eqn:E; injection Hk as <- <-; simpl.
  - split; [reflexivity|]. split; [|apply filter_remove_first].
    rewrite <- (count_remove_first _ _ E). lia.
  - split; [reflexivity|]. rewrite Hn. split; [lia|reflexivity].
Qed.

Lemma deleteInApp_ok_witness :
  deleteInAppNotification 1 "u" istore = (Ok false, istore) /\
  false = existsb (owned 1 "u") (is_notifs istore).
Proof.
  assert (H : deleteInAppNotification 1 "u" istore = (Ok false, istore)) by (vm_compute; reflexivity).
  split; [exact H|]. exact (proj1 (deleteInApp_ok 1 "u" istore _ _ H)).
Defined.

(** The page *)

Lemma insert_created_hd r a l :
  HdRel by_created_desc a l -> by_created_desc a r -> HdRel by_created_desc a (insert_created r l).
Proof.
  intros Hl Hr. destruct l as [|x l]; simpl; [constructor; exact Hr|].
  destruct (ia_createdAt x <? ia_createdAt r)%nat; constructor; [exact Hr|inversion Hl; assumption].
Qed.

Lemma insert_created_sorted r l :
  Sorted by_created_desc l -> Sorted by_created_desc (insert_created r l).
Proof.
  induction l as [|x l IH]; simpl; intros Hs; [repeat constructor|].
  destruct (ia_createdAt x <? ia_createdAt r)%nat eqn:E.
  - apply Nat.ltb_lt in E. constructor; [exact Hs|constructor; unfold by_created_desc; lia].
  - apply Nat.ltb_ge in E. inversion Hs as [|? ? Hs' Hhd]; subst.
    constructor; [apply IH, Hs'|]. apply insert_created_hd; [exact Hhd|unfold by_created_desc; lia].
Qed.

Lemma sort_created_sorted l : Sorted by_created_desc (sort_created l).
Proof. induction l as [|x l IH]; simpl; [constructor|apply insert_created_sorted, IH]. Qed.

Lemma insert_created_perm r l : Permutation (insert_created r l) (r :: l).
Proof.
  induction l as [|x l IH]; simpl; [reflexivity|].
  destruct (ia_createdAt x <? ia_createdAt r)%nat; [reflexivity|].
  rewrite IH. apply perm_swap.
Qed.

Lemma sort_created_perm l : Permutation (sort_created l) l.
Proof. induction l as [|x l IH]; simpl; [reflexivity|]. rewrite insert_created_perm, IH. reflexivity. Qed.

Lemma sorted_skipn {A} (R : A -> A -> Prop) n l : Sorted R l -> Sorted R (skipn n l).
Proof.
  revert l. induction n as [|n IH]; intros l Hs; [exact Hs|].
  destruct l as [|x l]; [constructor|]. simpl. apply IH. inversion Hs; assumption.
Qed.

Lemma sorted_firstn {A} (R : A -> A -> Prop) n l : Sorted R l -> Sorted R (firstn n l).
Proof.
  revert l. induction n as [|n IH]; intros l Hs; [constructor|].
  destruct l as [|x l]; [constructor|]. simpl. inversion Hs as [|? ? Hs' Hhd]; subst.
  constructor; [apply IH, Hs'|]. destruct n, l; simpl; try constructor. inversion Hhd; assumption.
Qed.

Lemma in_page {A} skip limit (l : list A) x : In x (page skip limit l) -> In x l.
Proof.
  assert (Hf : forall n (m : list A), In x (firstn n m) -> In x m).
  { intros n m Hm. rewrite <- (firstn_skipn n m). apply in_or_app. left. exact Hm. }
  assert (Hs : forall n (m : list A), In x (skipn n m) -> In x m).
  { intros n m Hm. rewrite <- (firstn_skipn n m). apply in_or_app. right. exact Hm. }
  unfold page. destruct (Z.eqb limit 0); intros H; [exact (Hs _ _ H)|exact (Hs _ _ (Hf _ _ H))].
Qed.

(** X19: a successful [getInAppNotifications u limit skip unreadOnly]
    had a non-negative [skip] (a negative one makes the call fail); it
    returns notifications of [u] only (only unread ones when [unreadOnly]),
    newest first: all the matching ones after the first [skip] when [limit]
    is 0, and min(|limit|, total - skip) of them otherwise, a negative
    [limit] included, where total counts the matching notifications;
    [unreadCount] is [u]'s unread count (whatever [unreadOnly]); [hasMore]
    holds exactly when skip + limit < total; the collection is not
    changed. *)
Theorem getInAppNotifications_ok (u : string) (limit skip : Z) (unreadOnly : bool)
    (s s' : IState) (pg : InAppPage) :
  getInAppNotifications u limit skip unreadOnly s = (Ok pg, s') ->
  (0 <= skip)%Z
  /\ is_notifs s' = is_notifs s
  /\ ip_unreadCount pg = length (List.filter (unread_of u) (is_notifs s))
  /\ Forall (fun x => In x (is_notifs s) /\ inapp_query u unreadOnly x = true) (ip_notifications pg)
  /\ Sorted by_created_desc (ip_notifications pg)
  /\ length (ip_notifications pg)
     = (if Z.eqb limit 0
        then length (List.filter (inapp_query u unreadOnly) (is_notifs s)) - Z.to_nat skip
        else Nat.min (Z.to_nat (Z.abs limit))
               (length (List.filter (inapp_query u unreadOnly) (is_notifs s)) - Z.to_nat skip))%nat
  /\ (ip_hasMore pg = true
      <-> (skip + limit < Z.of_nat (length (List.filter (inapp_query u unreadOnly) (is_notifs s))))%Z).
Proof.
  intros H. unfold getInAppNotifications in H. apply iwrap_ok in H.
  apply ibind_ok in H as (c & s1 & H1 & H).
  apply ibind_ok in H as (ns & s2 & H2 & H).
  apply ibind_ok in H as (tot & s3 & H3 & H).
  apply icall_ok in H1 as (t1 & Hn1 & _ & _ & K1). injection K1 as <- <-.
  apply icall_ok in H2 as (t2 & Hn2 & _ & _ & K2).
  destruct (skip <? 0)%Z eqn:Esk; [discriminate|]. apply Z.ltb_ge in Esk.
  injection K2 as <- <-.
  apply icall_ok in H3 as (t3 & Hn3 & _ & _ & K3). injection K3 as <- <-.
  unfold iret in H. injection H as <- <-. simpl.
  rewrite Hn3, Hn2, Hn1.
  set (q := List.filter (inapp_query u unreadOnly) (is_notifs s)).
  split; [exact Esk|]. split; [reflexivity|]. split; [reflexivity|]. split; [|split; [|split]].
  - apply List.Forall_forall. intros x Hx. apply in_page in Hx.
    apply (Permutation_in _ (sort_created_perm q)) in Hx. apply filter_In in Hx. exact Hx.
  - unfold page. destruct (Z.eqb limit 0);
      [apply sorted_skipn, sort_created_sorted|apply sorted_firstn, sorted_skipn, sort_created_sorted].
  - unfold page. destruct (Z.eqb limit 0).
    + rewrite length_skipn, (Permutation_length (sort_created_perm q)). reflexivity.
    + rewrite length_firstn, length_skipn, (Permutation_length (sort_created_perm q)). reflexivity.
  - apply Z.ltb_lt.
Qed.

(** A negative [limit], as the controller passes on for [limit=-1], returns
    one notification. *)
Lemma getInAppNotifications_ok_witness :
  getInAppNotifications "u" (-1) 0 false istore
    = (Ok (mkInAppPage [mkInApp 2 "u" "C" "c" "success" (Some "task") true (Some 4%nat) 3 4] 1 true), istore) /\
  length (ip_notifications
            (mkInAppPage [mkInApp 2 "u" "C" "c" "success" (Some "task") true (Some 4%nat) 3 4] 1 true))
  = Nat.min 1 (length (List.filter (inapp_query "u" false) (is_notifs istore)) - 0).
Proof.
  assert (H : getInAppNotifications "u" (-1) 0 false istore
    = (Ok (mkInAppPage [mkInApp 2 "u" "C" "c" "success" (Some "task") true (Some 4%nat) 3 4] 1 true), istore))
    by (vm_compute; reflexivity).
  split; [exact H|].
  exact (proj1 (proj2 (proj2 (proj2 (proj2 (proj2
           (getInAppNotifications_ok "u" (-1) 0 false istore _ _ H))))))).
Defined.

(** *** CORS *)

Lemma dedup_fold_in l acc x :
  In x (fold_left dedup_step l acc) <-> In x acc \/ In x l.
Proof.
  revert acc. induction l as [|y l IH]; intros acc; simpl; [tauto|].
  rewrite IH. unfold dedup_step. destruct (existsb (String.eqb y) acc) eqn:E.
  - apply existsb_exists in E as (z & Hz & Ez). apply String.eqb_eq in Ez. subst z.
    split; [tauto|]. intros [H|[H|H]]; [left; exact H|left; subst; exact Hz|right; exact H].
  - rewrite in_app_iff. simpl. tauto.
Qed.

Lemma dedup_fold_nodup l acc :
  NoDup acc -> NoDup (fold_left dedup_step l acc).
Proof.
  revert acc. induction l as [|y l IH]; intros acc Hacc; simpl; [exact Hacc|].
  apply IH. unfold dedup_step. destruct (existsb (String.eqb y) acc) eqn:E; [exact Hacc|].
  apply NoDup_app. split; [exact Hacc|]. split; [|apply NoDup_singleton].
  intros z Hz Hz'. apply list_elem_of_singleton in Hz'. subst z.
  apply list_elem_of_In in Hz.
  assert (existsb (String.eqb y) acc = true) by (apply existsb_exists; exists y; split; [exact Hz|apply String.eqb_refl]).
  congruence.
Qed.

Lemma dedup_fold_prefix l acc : exists t, fold_left dedup_step l acc = acc ++ t.
Proof.
  revert acc. induction l as [|y l IH]; intros acc; simpl; [exists []; symmetry; apply app_nil_r|].
  destruct (IH (dedup_step acc y)) as (t & Ht). rewrite Ht. unfold dedup_step.
  destruct (existsb _ _); [exists t; reflexivity|exists ([y] ++ t); rewrite app_assoc; reflexivity].
Qed.

Lemma dedup_defaults : fold_left dedup_step default_origins [] = default_origins.
Proof. vm_compute. reflexivity. Qed.

Lemma allowed_origins_fold env :
  allowed_origins env = fold_left dedup_step (custom_origins env) default_origins.
Proof.
  transitivity (fold_left dedup_step (custom_origins env) (fold_left dedup_step default_origins [])).
  - unfold allowed_origins, dedup_strings. rewrite fold_left_app. reflexivity.
  - rewrite dedup_defaults. reflexivity.
Qed.

Lemma allowed_origins_in env o :
  In o (allowed_origins env) <-> In o (default_origins ++ custom_origins env).
Proof. rewrite allowed_origins_fold, dedup_fold_in, in_app_iff. reflexivity. Qed.

(** X20: the allowed origins are the twelve default origins, in order,
    followed by the custom origins of [CORS_ORIGIN] not already listed;
    no origin appears twice, and an origin is allowed exactly when it is a
    default or a custom one. *)
Theorem allowed_origins_shape (env : option string) :
  (exists extra, allowed_origins env = default_origins ++ extra)
  /\ NoDup (allowed_origins env)
  /\ (forall o, In o (allowed_origins env) <-> In o (default_origins ++ custom_origins env)).
Proof.
  rewrite allowed_origins_fold. split; [apply dedup_fold_prefix|split].
  - apply dedup_fold_nodup. apply (bool_decide_unpack (NoDup default_origins)). vm_compute. exact I.
  - intros o. rewrite <- allowed_origins_fold. apply allowed_origins_in.
Qed.

(** X21: a request with no or an empty [Origin] is always accepted; any
    other origin is accepted exactly when it is a default or a custom
    origin, and otherwise refused with "Origin <o> not allowed by CORS
    policy". *)
Theorem cors_origin_decision (env : option string) (o : string) :
  o <> "" ->
  cors_origin env None = Ok true
  /\ cors_origin env (Some "") = Ok true
  /\ (cors_origin env (Some o) = Ok true <-> In o (default_origins ++ custom_origins env))
  /\ (~ In o (default_origins ++ custom_origins env) ->
      cors_origin env (Some o) = Err (EMsg ("Origin " ++ o ++ " not allowed by CORS policy"))).
Proof.
  intros Hne. pose proof (allowed_origins_in env o) as Hin.
  unfold cors_origin. apply String.eqb_neq in Hne. rewrite Hne.
  split; [reflexivity|split; [reflexivity|]].
  destruct (existsb (String.eqb o) (allowed_origins env)) eqn:E.
  - apply existsb_exists in E as (z & Hz & Ez). apply String.eqb_eq in Ez. subst z.
    pose proof (proj1 Hin Hz) as Hd.
    split; [split; [intros _; exact Hd|intros _; reflexivity]|].
    intros Hn. exfalso. exact (Hn Hd).
  - split; [|intros _; reflexivity]. split; [discriminate|]. intros Ho. exfalso.
    assert (existsb (String.eqb o) (allowed_origins env) = true)
      by (apply existsb_exists; exists o; split; [exact (proj2 Hin Ho)|apply String.eqb_refl]).
    congruence.
Qed.

Lemma cors_origin_decision_witness :
  "https://a.com" <> "" /\ (cors_origin (Some "https://a.com, https://b.com") (Some "https://a.com") = Ok true
   <-> In "https://a.com" (default_origins ++ custom_origins (Some "https://a.com, https://b.com"))).
Proof.
  assert (H : "https://a.com" <> "") by discriminate.
  split; [exact H|].
  exact (proj1 (proj2 (proj2 (cors_origin_decision (Some "https://a.com, https://b.com") _ H)))).
Defined.

Lemma split_comma_nonempty s : split_comma s <> [].
Proof.
  destruct s as [|c r]; simpl; [discriminate|].
  destruct (Nat.eqb _ 44); [discriminate|]. destruct (split_comma r); discriminate.
Qed.

Lemma split_comma_app o rest :
  split_comma o = [o] -> split_comma ((o ++ "," ++ rest)%string) = o :: split_comma rest.
Proof.
  induction o as [|c o IH]; intros H; [reflexivity|].
  simpl in H. simpl. destruct (Nat.eqb (Ascii.nat_of_ascii c) 44) eqn:Ec.
  - injection H as H1 _. discriminate.
  - destruct (split_comma o) as [|p ps] eqn:Eo; [exfalso; exact (split_comma_nonempty o Eo)|].
    injection H as -> ->. rewrite (IH eq_refl). reflexivity.
Qed.

Lemma split_comma_concat l :
  l <> [] -> Forall (fun o => split_comma o = [o]) l -> split_comma (String.concat "," l) = l.
Proof.
  induction l as [|x l IH]; intros Hl Hf; [congruence|].
  apply Forall_cons in Hf as [Hx Hr].
  destruct l as [|y l]; [exact Hx|].
  change (String.concat "," (x :: y :: l)) with ((x ++ "," ++ String.concat "," (y :: l))%string).
  rewrite split_comma_app by exact Hx. rewrite IH; [reflexivity|discriminate|exact Hr].
Qed.

(** X22: [CORS_ORIGIN] set to a comma-separated list of non-empty origins
    without surrounding white space and without commas is read back as
    exactly that list of custom origins, in order. *)
Theorem custom_origins_roundtrip (l : list string) :
  l <> [] ->
  Forall (fun o => o <> "" /\ trim o = o /\ split_comma o = [o]) l ->
  custom_origins (Some (String.concat "," l)) = l.
Proof.
  intros Hl Hf. unfold custom_origins.
  assert (Hne : String.eqb (String.concat "," l) "" = false).
  { destruct l as [|x [|y l]]; [congruence| |].
    - apply Forall_cons in Hf as [(Hx & _) _]. apply String.eqb_neq, Hx.
    - apply Forall_cons in Hf as [(Hx & _) _]. destruct x; [congruence|reflexivity]. }
  rewrite Hne, split_comma_concat;
    [|exact Hl|eapply Forall_impl; [exact Hf|intros o (_ & _ & H); exact H]].
  rewrite (map_ext_in trim id) by (intros o Ho; exact (proj1 (proj2 (proj1 (List.Forall_forall _ _) Hf o Ho)))).
  rewrite map_id. apply filter_all. intros o Ho.
  destruct (proj1 (List.Forall_forall _ _) Hf o Ho) as (Hne' & _).
  destruct o; [congruence|reflexivity].
Qed.

Lemma custom_origins_roundtrip_witness :
  ["https://a.com"; "http://b.org:8080"] <> [] /\ Forall (fun o => o <> "" /\ trim o = o /\ split_comma o = [o]) ["https://a.com"; "http://b.org:8080"] /\ custom_origins (Some "https://a.com,http://b.org:8080") = ["https://a.com"; "http://b.org:8080"].
Proof.
  assert (H1 : ["https://a.com"; "http://b.org:8080"] <> []) by discriminate.
  assert (H2 : Forall (fun o => o <> "" /\ trim o = o /\ split_comma o = [o]) ["https://a.com"; "http://b.org:8080"])
    by (repeat constructor; (discriminate || vm_compute; reflexivity)).
  split; [exact H1|split; [exact H2|]].
  exact (custom_origins_roundtrip _ H1 H2).
Defined.
